(** * The file-feed pipeline of [examples/file_feed_asyncio.py]

    A shallow embedding of [FeedReader]: one producer coroutine that pulls
    objects from the VirusTotal file feed into a bounded [asyncio.Queue], and
    [num_workers] worker coroutines that take objects from the queue, download
    their content and write two files per object.

    The asyncio event loop is cooperative: a coroutine runs without
    interruption from one suspension point ([await] that really waits) to the
    next.  The model is therefore a labelled transition system whose atomic
    steps are exactly those stretches of code, and whose labels are chosen by
    the scheduler and by the outside world (network, disk, SIGINT). *)

From stdpp Require Import gmap strings list.
From Stdlib Require Import ZArith Lia Ascii DecimalString DecimalZ DecimalPos DecimalFacts.

Local Open Scope Z_scope.

(** ** JSON values and [json.dumps] *)

Module Json.

(** The Python values [json.dumps] and [json.loads] exchange.  A [str] is a
    sequence of code points; a [dict] keeps its items in insertion order. *)
#[local] Unset Elimination Schemes.
Inductive value : Type :=
| JNull
| JBool (b : bool)
| JInt (n : Z)
| JStr (s : list N)
| JList (l : list value)
| JDict (d : list (list N * value)).
#[local] Set Elimination Schemes.

Definition chr (n : N) : Ascii.ascii := Ascii.ascii_of_N n.
Definition ord (c : Ascii.ascii) : N := Ascii.N_of_ascii c.
Definition str1 (n : N) : string := String (chr n) EmptyString.

Definition quote : N := 34.
Definition backslash : N := 92.

(** ['{0:04x}'.format(n)] for [n < 0x10000]. *)
Definition hexdigit (d : N) : Ascii.ascii :=
  if (d <? 10)%N then chr (48 + d) else chr (87 + d).

Definition hex4 (n : N) : string :=
  String (hexdigit (N.land (N.shiftr n 12) 15))
    (String (hexdigit (N.land (N.shiftr n 8) 15))
       (String (hexdigit (N.land (N.shiftr n 4) 15))
          (String (hexdigit (N.land n 15)) EmptyString))).

Definition u_escape (n : N) : string := "\u" +:+ hex4 n.

(** [replace] of [json.encoder.py_encode_basestring_ascii]: the text that
    stands for one code point between the quotes. *)
Definition escape (c : N) : string :=
  if (c =? quote)%N then String (chr backslash) (str1 quote)
  else if (c =? backslash)%N then String (chr backslash) (str1 backslash)
  else if (c =? 8)%N then "\b"
  else if (c =? 12)%N then "\f"
  else if (c =? 10)%N then "\n"
  else if (c =? 13)%N then "\r"
  else if (c =? 9)%N then "\t"
  else if (32 <=? c)%N && (c <=? 126)%N then str1 c
  else if (c <? 65536)%N then u_escape c
  else
    let n := (c - 65536)%N in
    let s1 := N.lor 55296 (N.land (N.shiftr n 10) 1023) in
    let s2 := N.lor 56320 (N.land n 1023) in
    u_escape s1 +:+ u_escape s2.

Fixpoint escape_all (s : list N) : string :=
  match s with
  | [] => EmptyString
  | c :: s' => escape c +:+ escape_all s'
  end.

Definition encode_basestring_ascii (s : list N) : string :=
  str1 quote +:+ escape_all s +:+ str1 quote.

(** [int.__repr__]. *)
Definition int_repr (n : Z) : string := NilZero.string_of_int (Z.to_int n).

(** [', '.join(parts)]. *)
Fixpoint join_comma (parts : list string) : string :=
  match parts with
  | [] => EmptyString
  | [p] => p
  | p :: ps => p +:+ ", " +:+ join_comma ps
  end.

(** [json.dumps(v)] with the default arguments: [ensure_ascii=True],
    separators [', '] and [': '], no indentation, keys in dict order. *)
Fixpoint dumps (v : value) : string :=
  match v with
  | JNull => "null"
  | JBool true => "true"
  | JBool false => "false"
  | JInt n => int_repr n
  | JStr s => encode_basestring_ascii s
  | JList l => "[" +:+ join_comma (map dumps l) +:+ "]"
  | JDict d =>
      "{" +:+
      join_comma
        ((fix items (d : list (list N * value)) : list string :=
            match d with
            | [] => []
            | (k, x) :: d' =>
                (encode_basestring_ascii k +:+ ": " +:+ dumps x) :: items d'
            end) d)
      +:+ "}"
  end.

(** *** [json.loads]

    The text is given as a string of code points below 256 (what [dumps]
    writes is ASCII, so its UTF-8 bytes are its code points).  Floats are
    not among the values modelled: a number with a fraction or an exponent,
    [NaN] and [Infinity] are refused. *)

Definition is_char (c : Ascii.ascii) (n : N) : bool := (ord c =? n)%N.



Definition hexval (c : Ascii.ascii) : option N :=
  let n := ord c in
  if (48 <=? n)%N && (n <=? 57)%N then Some (n - 48)%N
  else if (97 <=? n)%N && (n <=? 102)%N then Some (n - 87)%N
  else if (65 <=? n)%N && (n <=? 70)%N then Some (n - 55)%N
  else None.

(** [_decode_uXXXX]: the four characters after [\u] read as a hexadecimal
    number. *)
Definition decode_uXXXX (h1 h2 h3 h4 : Ascii.ascii) : option N :=
  match hexval h1, hexval h2, hexval h3, hexval h4 with
  | Some a, Some b, Some c, Some d => Some (((a * 16 + b) * 16 + c) * 16 + d)%N
  | _, _, _, _ => None
  end.

(** The dict [BACKSLASH] of [json.decoder]. *)
Definition backslash_char (e : Ascii.ascii) : option N :=
  if is_char e 34 then Some 34%N
  else if is_char e 92 then Some 92%N
  else if is_char e 47 then Some 47%N
  else if is_char e 98 then Some 8%N
  else if is_char e 102 then Some 12%N
  else if is_char e 110 then Some 10%N
  else if is_char e 114 then Some 13%N
  else if is_char e 116 then Some 9%N
  else None.

Definition high_surrogate (n : N) : bool := (55296 <=? n)%N && (n <=? 56319)%N.
Definition low_surrogate (n : N) : bool := (56320 <=? n)%N && (n <=? 57343)%N.

Definition join_surrogates (uni uni2 : N) : N :=
  (65536 + N.lor (N.shiftl (uni - 55296) 10) (uni2 - 56320))%N.

Definition cons_char (c : N) (r : option (list N * string)) : option (list N * string) :=
  match r with
  | Some (cs, rest) => Some (c :: cs, rest)
  | None => None
  end.

(** [py_scanstring] in strict mode, from just after the opening quote: the
    string read and the text after the closing quote. *)
Fixpoint scanstring (s : string) : option (list N * string) :=
  match s with
  | EmptyString => None
  | String c s1 =>
      if is_char c quote then Some ([], s1)
      else if is_char c backslash then
        match s1 with
        | EmptyString => None
        | String e s2 =>
            if is_char e 117 then
              match s2 with
              | String h1 (String h2 (String h3 (String h4 s3))) =>
                  match decode_uXXXX h1 h2 h3 h4 with
                  | None => None
                  | Some uni =>
                      if high_surrogate uni then
                        match s3 with
                        | String b (String u s4) =>
                            if is_char b backslash && is_char u 117 then
                              match s4 with
                              | String l1 (String l2 (String l3 (String l4 s5))) =>
                                  match decode_uXXXX l1 l2 l3 l4 with
                                  | None => None
                                  | Some uni2 =>
                                      if low_surrogate uni2 then
                                        cons_char (join_surrogates uni uni2) (scanstring s5)
                                      else cons_char uni (scanstring s3)
                                  end
                              | _ => None
                              end
                            else cons_char uni (scanstring s3)
                        | _ => cons_char uni (scanstring s3)
                        end
                      else cons_char uni (scanstring s3)
                  end
              | _ => None
              end
            else
              match backslash_char e with
              | Some ch => cons_char ch (scanstring s2)
              | None => None
              end
        end
      else if (ord c <? 32)%N then None
      else cons_char (ord c) (scanstring s1)
  end.

(** [s[idx:idx + len(p)] == p], and the text after it. *)
Fixpoint strip_prefix (p s : string) : option string :=
  match p with
  | EmptyString => Some s
  | String a p' =>
      match s with
      | String b s' => if Ascii.eqb a b then strip_prefix p' s' else None
      | EmptyString => None
      end
  end.










(** *** Values as [json.loads] builds them *)












End Json.

(** ** Objects of the feed *)

(** Modelled from the spec: [vt.Object], whose class is not among the
    sources, as this program uses it.  [id] is the item's identifier,
    [context_attributes] the dict that holds the download locator (a Python
    dict: the first binding of a key is the one a lookup finds), and
    [to_dict] the item's attribute mapping, the value [to_dict()] returns. *)
Record Object := {
  id : string;
  context_attributes : list (string * string);
  to_dict : Json.value;
}.

(** [d[key]] on a dict of strings; [None] stands for [KeyError]. *)
Fixpoint getitem (d : list (string * string)) (key : string) : option string :=
  match d with
  | [] => None
  | (k, x) :: d' => if String.eqb k key then Some x else getitem d' key
  end.

(** ** [os.path.join] on POSIX, for two components *)

Definition sep : Ascii.ascii := Ascii.ascii_of_N 47.

Definition startswith_sep (s : string) : bool :=
  match s with
  | String c _ => Ascii.eqb c sep
  | EmptyString => false
  end.

Fixpoint endswith_sep (s : string) : bool :=
  match s with
  | EmptyString => false
  | String c EmptyString => Ascii.eqb c sep
  | String _ s' => endswith_sep s'
  end.

Definition path_join (a b : string) : string :=
  if startswith_sep b then b
  else match a with
       | EmptyString => b
       | _ => if endswith_sep a then a +:+ b
              else a +:+ String sep EmptyString +:+ b
       end.

(** ** The [FeedReader] object *)

Record FeedReader := {
  _apikey : string;
  _aborted : bool;
  _cursor : option string;
  _output_dir : string;
  _num_workers : Z;
  _queue : list Object;   (* items of [asyncio.Queue(maxsize=num_workers)], oldest first *)
}.

Definition __init__ (apikey output_dir : string) (num_workers : Z)
    (cursor : option string) : FeedReader :=
  {| _apikey := apikey;
     _aborted := false;
     _cursor := cursor;
     _output_dir := output_dir;
     _num_workers := num_workers;
     _queue := [] |}.

(** [asyncio.Queue.full()]: a queue whose [maxsize] is not positive is never
    full. *)
Definition full (maxsize : Z) (q : list Object) : bool :=
  if maxsize <=? 0 then false else maxsize <=? Z.of_nat (length q).

(** [asyncio.Queue.empty()]. *)
Definition empty (q : list Object) : bool :=
  match q with
  | [] => true
  | _ => false
  end.

Definition abort (self : FeedReader) : FeedReader :=
  {| _apikey := _apikey self;
     _aborted := true;
     _cursor := _cursor self;
     _output_dir := _output_dir self;
     _num_workers := _num_workers self;
     _queue := _queue self |}.

Definition cursor (self : FeedReader) : option string := _cursor self.

Definition set_cursor (c : option string) (self : FeedReader) : FeedReader :=
  {| _apikey := _apikey self;
     _aborted := _aborted self;
     _cursor := c;
     _output_dir := _output_dir self;
     _num_workers := _num_workers self;
     _queue := _queue self |}.

Definition set_queue (q : list Object) (self : FeedReader) : FeedReader :=
  {| _apikey := _apikey self;
     _aborted := _aborted self;
     _cursor := _cursor self;
     _output_dir := _output_dir self;
     _num_workers := _num_workers self;
     _queue := q |}.

(** ** Tasks *)

(** Where the coroutine [_get_from_feed_and_enqueue] is suspended. *)
Inductive producer_state : Type :=
| PCreated                       (* task created, body not started *)
| PNext                          (* inside [async for]: waiting for the feed *)
| PPut (file_obj : Object)       (* inside [await self._queue.put(file_obj)], queue full *)
| PDone                          (* returned *)
| PRaised.                       (* ended by an exception *)

(** Where one coroutine [_process_files_from_queue] is suspended. *)
Inductive worker_state : Type :=
| WCreated                                        (* task created, body not started *)
| WGet                                            (* inside [await self._queue.get()], queue empty *)
| WGetAsync (file_obj : Object) (download_url : string)  (* inside [await client.get_async(...)] *)
| WRead (file_obj : Object)                       (* inside [await response.read()] *)
| WDone                                           (* the [while] condition was false: returned *)
| WRaised.                                        (* ended by an exception *)

(** What the feed answers to one [__anext__]. *)
Inductive feed_result : Type :=
| Item (file_obj : Object) (position : string)  (* next object; [feed.cursor] then reads [position] *)
| FeedError                                     (* the request raised *)
| StopAsyncIteration.                           (* no more objects *)

(** What the two [with open(...) as f: f.write(...)] blocks of one iteration
    do.  A block fails either in [open], which then leaves the file system
    as it is ([None]), or after [open] has created or truncated the file:
    [json.dumps], [write] or the close at the end of the block raises, and
    the file is left with [written], the part of the text that reached it
    ([Some written]). *)
Inductive write_result : Type :=
| WriteOk
| MetadataFails (written : option string)
                     (* the block of the [.json] file raises *)
| ContentFails (written : option string).
                     (* the [.json] file is complete, the block of the
                        content file raises *)

(** The whole program state while [run] is inside [run_until_complete]. *)
Record World := {
  self : FeedReader;
  feed_cursor : option string;            (* [feed.cursor] of the producer's feed *)
  producer_task : producer_state;
  _worker_tasks : list worker_state;
  files : gmap string string;             (* the file system: path to content *)
  stdout : list string;                   (* lines printed *)
  yielded : list (Object * string);       (* history: objects the feed yielded, with positions *)
  enqueued : list Object;                 (* history: objects put in the queue *)
}.

Definition with_self (f : FeedReader -> FeedReader) (w : World) : World :=
  {| self := f (self w);
     feed_cursor := feed_cursor w;
     producer_task := producer_task w;
     _worker_tasks := _worker_tasks w;
     files := files w;
     stdout := stdout w;
     yielded := yielded w;
     enqueued := enqueued w |}.

Definition set_producer (p : producer_state) (w : World) : World :=
  {| self := self w;
     feed_cursor := feed_cursor w;
     producer_task := p;
     _worker_tasks := _worker_tasks w;
     files := files w;
     stdout := stdout w;
     yielded := yielded w;
     enqueued := enqueued w |}.

Definition set_worker (i : nat) (t : worker_state) (w : World) : World :=
  {| self := self w;
     feed_cursor := feed_cursor w;
     producer_task := producer_task w;
     _worker_tasks := <[i := t]> (_worker_tasks w);
     files := files w;
     stdout := stdout w;
     yielded := yielded w;
     enqueued := enqueued w |}.

Definition set_feed_cursor (c : option string) (w : World) : World :=
  {| self := self w;
     feed_cursor := c;
     producer_task := producer_task w;
     _worker_tasks := _worker_tasks w;
     files := files w;
     stdout := stdout w;
     yielded := yielded w;
     enqueued := enqueued w |}.

Definition log_yielded (file_obj : Object) (position : string) (w : World) : World :=
  {| self := self w;
     feed_cursor := feed_cursor w;
     producer_task := producer_task w;
     _worker_tasks := _worker_tasks w;
     files := files w;
     stdout := stdout w;
     yielded := yielded w ++ [(file_obj, position)];
     enqueued := enqueued w |}.

Definition log_enqueued (file_obj : Object) (w : World) : World :=
  {| self := self w;
     feed_cursor := feed_cursor w;
     producer_task := producer_task w;
     _worker_tasks := _worker_tasks w;
     files := files w;
     stdout := stdout w;
     yielded := yielded w;
     enqueued := enqueued w ++ [file_obj] |}.

Definition write_file (path content : string) (w : World) : World :=
  {| self := self w;
     feed_cursor := feed_cursor w;
     producer_task := producer_task w;
     _worker_tasks := _worker_tasks w;
     files := <[path := content]> (files w);
     stdout := stdout w;
     yielded := yielded w;
     enqueued := enqueued w |}.

Definition print (line : string) (w : World) : World :=
  {| self := self w;
     feed_cursor := feed_cursor w;
     producer_task := producer_task w;
     _worker_tasks := _worker_tasks w;
     files := files w;
     stdout := stdout w ++ [line];
     yielded := yielded w;
     enqueued := enqueued w |}.

(** ** Atomic steps *)

(** What the scheduler or the outside world does next. *)
Inductive event : Type :=
| Sigint                                 (* the signal handler runs [self.abort] *)
| ResumeProducer                         (* the producer starts, or its pending [put] goes on *)
| FeedAnswers (r : feed_result)          (* the producer's pending [__anext__] completes *)
| ResumeWorker (i : nat)                 (* worker [i] starts, or its pending [get] goes on *)
| GetAsyncReturns (i : nat) (ok : bool)  (* worker [i]'s [get_async] completes or raises *)
| ReadReturns (i : nat) (data : option string) (wr : write_result).
                                         (* worker [i]'s [response.read()] completes or raises,
                                            and what the disk does with the writes after it *)

(** [await self._queue.put(file_obj)] and the code after it, up to the next
    suspension of the producer.  [maxsize] of the queue is [num_workers]. *)
Definition put_and_continue (file_obj : Object) (w : World) : World :=
  if full (_num_workers (self w)) (_queue (self w)) then
    set_producer (PPut file_obj) w
  else
    let w1 :=
      log_enqueued file_obj
        (with_self (fun s => set_queue (_queue s ++ [file_obj]) s) w) in
    if _aborted (self w1) then
      (* break; self._cursor = feed.cursor *)
      set_producer PDone (with_self (set_cursor (feed_cursor w1)) w1)
    else
      set_producer PNext w1.

(** [file_obj = await self._queue.get()] and the code after it, up to the
    next suspension of worker [i]. *)
Definition get_and_continue (i : nat) (w : World) : World :=
  match _queue (self w) with
  | [] => set_worker i WGet w
  | file_obj :: q =>
      let w1 := with_self (set_queue q) w in
      match getitem (context_attributes file_obj) "download_url" with
      | None => set_worker i WRaised w1
      | Some download_url => set_worker i (WGetAsync file_obj download_url) w1
      end
  end.

(** The head of the worker's loop:
    [while not self._aborted or not self._queue.empty()]. *)
Definition loop_head (i : nat) (w : World) : World :=
  if negb (_aborted (self w)) || negb (empty (_queue (self w))) then
    get_and_continue i w
  else
    set_worker i WDone w.

(** Modelled from the spec: the feed object of [vt.Client.feed], which is
    not among the sources.  It starts at the position it is given, and after
    it yields an item its [cursor] is that item's position. *)
Definition feed_open (w : World) : World :=
  set_feed_cursor (_cursor (self w)) w.

Definition feed_yield (file_obj : Object) (position : string) (w : World) : World :=
  log_yielded file_obj position (set_feed_cursor (Some position) w).

(** What a block that raises leaves at [path]: nothing new when [open]
    raised, the part written otherwise. *)
Definition write_partial (path : string) (written : option string)
    (w : World) : World :=
  match written with
  | None => w
  | Some text => write_file path text w
  end.

(** A file that a failed block leaves behind holds a prefix of the text the
    block was writing. *)
Definition write_possible (file_obj : Object) (data : string)
    (wr : write_result) : bool :=
  match wr with
  | WriteOk => true
  | MetadataFails None | ContentFails None => true
  | MetadataFails (Some written) =>
      String.prefix written (Json.dumps (to_dict file_obj))
  | ContentFails (Some written) => String.prefix written data
  end.

(** The rest of one worker iteration once [data] has been read. *)
Definition write_and_continue (i : nat) (file_obj : Object) (data : string)
    (wr : write_result) (w : World) : World :=
  let file_path := path_join (_output_dir (self w)) (id file_obj) in
  match wr with
  | MetadataFails written =>
      set_worker i WRaised (write_partial (file_path +:+ ".json") written w)
  | ContentFails written =>
      set_worker i WRaised
        (write_partial file_path written
           (write_file (file_path +:+ ".json") (Json.dumps (to_dict file_obj)) w))
  | WriteOk =>
      loop_head i
        (print (id file_obj)
           (write_file file_path data
              (write_file (file_path +:+ ".json") (Json.dumps (to_dict file_obj)) w)))
  end.

(** One atomic step; [None] when the event cannot happen in this state. *)
Definition step (e : event) (w : World) : option World :=
  match e with
  | Sigint => Some (with_self abort w)
  | ResumeProducer =>
      match producer_task w with
      | PCreated => Some (set_producer PNext (feed_open w))
      | PPut file_obj =>
          if full (_num_workers (self w)) (_queue (self w)) then None
          else Some (put_and_continue file_obj w)
      | _ => None
      end
  | FeedAnswers r =>
      match producer_task w with
      | PNext =>
          match r with
          | Item file_obj position =>
              Some (put_and_continue file_obj (feed_yield file_obj position w))
          | FeedError => Some (set_producer PRaised w)
          | StopAsyncIteration =>
              Some (set_producer PDone (with_self (set_cursor (feed_cursor w)) w))
          end
      | _ => None
      end
  | ResumeWorker i =>
      match _worker_tasks w !! i with
      | Some WCreated => Some (loop_head i w)
      | Some WGet =>
          if empty (_queue (self w)) then None else Some (get_and_continue i w)
      | _ => None
      end
  | GetAsyncReturns i ok =>
      match _worker_tasks w !! i with
      | Some (WGetAsync file_obj _) =>
          Some (set_worker i (if ok then WRead file_obj else WRaised) w)
      | _ => None
      end
  | ReadReturns i data wr =>
      match _worker_tasks w !! i with
      | Some (WRead file_obj) =>
          match data with
          | None => Some (set_worker i WRaised w)
          | Some data =>
              if write_possible file_obj data wr
              then Some (write_and_continue i file_obj data wr w)
              else None
          end
      | _ => None
      end
  end.

(** A schedule is a list of events; it runs if each event can happen. *)
Fixpoint exec (sched : list event) (w : World) : option World :=
  match sched with
  | [] => Some w
  | e :: sched' =>
      match step e w with
      | Some w' => exec sched' w'
      | None => None
      end
  end.

(** ** [run] *)

Definition is_done (t : worker_state) : bool :=
  match t with
  | WDone => true
  | _ => false
  end.

Definition is_raised (t : worker_state) : bool :=
  match t with
  | WRaised => true
  | _ => false
  end.

Inductive run_result : Type :=
| Returned (w : World)     (* [run] returned *)
| Raised (w : World)       (* [run] raised the exception of a worker *)
| Blocked (w : World)      (* the schedule ended with [run] still waiting *)
| Impossible.              (* the schedule names an event that cannot happen *)

(** The producer task has taken its first step. *)
Definition started (p : producer_state) : bool :=
  match p with
  | PCreated => false
  | _ => true
  end.

(** [loop.run_until_complete(asyncio.gather( *self._worker_tasks))].  The
    future of [gather] is done when every worker task has returned, or as
    soon as one has raised; [Raised w] names the state [w] in which a worker
    raised the exception that [run] then raises.  When every worker has
    returned the loop does not stop at once: a callback of the future stops
    it, and the callbacks that are ready before (a step of the producer, the
    signal handler) still run; the loop never stops before the end of its
    first iteration, in which the producer task, the first one created,
    takes its first step.  [sched] lists the events up to the moment the
    loop stops. *)
Fixpoint run_until_complete (sched : list event) (w : World) : run_result :=
  if existsb is_raised (_worker_tasks w) then Raised w
  else
    match sched with
    | [] =>
        if forallb is_done (_worker_tasks w) && started (producer_task w)
        then Returned w
        else Blocked w
    | e :: sched' =>
        match step e w with
        | Some w' => run_until_complete sched' w'
        | None => Impossible
        end
    end.

(** The tasks [run] creates, on a file system [fs]. *)
Definition create_tasks (self0 : FeedReader) (fs : gmap string string) : World :=
  {| self := self0;
     feed_cursor := None;
     producer_task := PCreated;
     _worker_tasks := replicate (Z.to_nat (_num_workers self0)) WCreated;
     files := fs;
     stdout := [];
     yielded := [];
     enqueued := [] |}.

Definition run (sched : list event) (self0 : FeedReader)
    (fs : gmap string string) : run_result :=
  run_until_complete sched (create_tasks self0 fs).

(** The state in which [run] starts the event loop for a reader that was
    just constructed. *)
Definition start (apikey output_dir : string) (num_workers : Z)
    (cursor0 : option string) (fs : gmap string string) : World :=
  create_tasks (__init__ apikey output_dir num_workers cursor0) fs.

(** The position of the last item the feed yielded; [start_position] when it
    has yielded none. *)
Definition last_position (start_position : option string)
    (ys : list (Object * string)) : option string :=
  match last ys with
  | Some (_, position) => Some position
  | None => start_position
  end.

(** Events that run code of the producer coroutine. *)
Definition producer_event (e : event) : bool :=
  match e with
  | ResumeProducer | FeedAnswers _ => true
  | _ => false
  end.

(** The two output paths of an object. *)
Definition content_path (output_dir : string) (file_id : string) : string :=
  path_join output_dir file_id.

Definition metadata_path (output_dir : string) (file_id : string) : string :=
  path_join output_dir file_id +:+ ".json".

(** The queue holds at most [n] items, and [n] is the configured number of
    workers. *)
Definition queue_bounded (n : Z) (w : World) : Prop :=
  _num_workers (self w) = n /\ Z.of_nat (length (_queue (self w))) <= n.


(** What is known about the cursor while the producer is in each of its
    states, for a reader constructed with starting cursor [c0]: the feed's
    cursor is the position of the last item yielded, and [_cursor] still is
    [c0] until the producer's loop is over. *)
Definition cursor_inv (c0 : option string) (w : World) : Prop :=
  match producer_task w with
  | PCreated => _cursor (self w) = c0 /\ yielded w = []
  | PDone => _cursor (self w) = last_position c0 (yielded w)
  | _ => _cursor (self w) = c0 /\ feed_cursor w = last_position c0 (yielded w)
  end.

(** The producer is over, the queue is empty and every worker is suspended
    in [get]. *)
Definition stranded (w : World) : Prop :=
  (producer_task w = PDone \/ producer_task w = PRaised) /\
  _queue (self w) = [] /\
  _worker_tasks w <> [] /\
  Forall (fun t => t = WGet) (_worker_tasks w).

(** Events in which the download or a write of worker [i] fails. *)
Definition failure_of (i : nat) (e : event) : bool :=
  match e with
  | GetAsyncReturns j false => Nat.eqb i j
  | ReadReturns j None _ => Nat.eqb i j
  | ReadReturns j (Some _) (MetadataFails _) => Nat.eqb i j
  | ReadReturns j (Some _) (ContentFails _) => Nat.eqb i j
  | _ => false
  end.

(** For an identifier that is not an absolute path, [os.path.join] puts the
    same prefix, which depends on the directory only, before it. *)
Definition dir_prefix (output_dir : string) : string :=
  match output_dir with
  | EmptyString => EmptyString
  | _ => if endswith_sep output_dir then output_dir
         else output_dir +:+ String sep EmptyString
  end.

(** ** Sample runs *)

(** Two workers, one object. *)
Definition sample_object (file_id : string) : Object :=
  {| id := file_id;
     context_attributes := [("download_url", "https://example.test/" +:+ file_id)];
     to_dict := Json.JDict [([105%N; 100%N], Json.JStr [97%N])] |}.

Definition sample_start : World := start "key" "out" 2 None ∅.


Definition sample_schedule : list event :=
  [ResumeProducer; ResumeWorker 0; ResumeWorker 1;
   FeedAnswers (Item (sample_object "a") "p1");
   ResumeWorker 1; GetAsyncReturns 1 true].


(** One worker, and SIGINT while the producer waits for the feed's second
    object: the worker finishes the first object and leaves its loop. *)
Definition interrupted_schedule : list event :=
  [ResumeProducer; ResumeWorker 0;
   FeedAnswers (Item (sample_object "a") "p1");
   ResumeWorker 0; GetAsyncReturns 0 true; Sigint;
   ReadReturns 0 (Some "DATA") WriteOk].

(** One worker, and the feed fails on its first request. *)
Definition feed_error_schedule : list event :=
  [ResumeProducer; ResumeWorker 0; FeedAnswers FeedError].

(** Two workers, two objects queued, and the download of the first fails. *)
Definition download_error_schedule : list event :=
  [ResumeProducer;
   FeedAnswers (Item (sample_object "a") "p1");
   FeedAnswers (Item (sample_object "b") "p2");
   ResumeWorker 0; GetAsyncReturns 0 false].

(** ** What [get] hands to the workers *)

(** The object [self._queue.get()] returns to a worker that reaches the head
    of its loop in state [w] and does not leave the loop. *)
Definition loop_gets (w : World) : option Object :=
  if negb (_aborted (self w)) || negb (empty (_queue (self w))) then
    head (_queue (self w))
  else None.

(** The worker and the object, when a [get] returns in the step [e] takes
    from [w]. *)
Definition got (e : event) (w : World) : option (nat * Object) :=
  match e with
  | ResumeWorker i =>
      match _worker_tasks w !! i with
      | Some WCreated => option_map (pair i) (loop_gets w)
      | Some WGet => option_map (pair i) (head (_queue (self w)))
      | _ => None
      end
  | ReadReturns i (Some _) WriteOk =>
      match _worker_tasks w !! i with
      | Some (WRead _) => option_map (pair i) (loop_gets w)
      | _ => None
      end
  | _ => None
  end.

(** The history of the [get]s that return along a schedule, oldest first. *)
Fixpoint gets (sched : list event) (w : World) : list (nat * Object) :=
  match sched with
  | [] => []
  | e :: sched' =>
      match step e w with
      | Some w' =>
          match got e w with
          | Some g => g :: gets sched' w'
          | None => gets sched' w'
          end
      | None => []
      end
  end.

(** The object the producer holds while it is suspended in [put]. *)
Definition pending (w : World) : list Object :=
  match producer_task w with
  | PPut file_obj => [file_obj]
  | _ => []
  end.

(** How many more objects the producer can still pull from the feed, and
    put in the queue, once the abort flag is set. *)
Definition pulls_left (w : World) : nat :=
  match producer_task w with
  | PCreated | PNext => 1
  | _ => 0
  end.

Definition puts_left (w : World) : nat :=
  match producer_task w with
  | PCreated | PNext | PPut _ => 1
  | _ => 0
  end.

Definition is_sigint (e : event) : bool :=
  match e with
  | Sigint => true
  | _ => false
  end.

(** Every identifier printed has its two files. *)
Definition printed_have_files (output_dir : string) (w : World) : Prop :=
  _output_dir (self w) = output_dir /\
  forall file_id, In file_id (stdout w) ->
    is_Some (files w !! content_path output_dir file_id) /\
    is_Some (files w !! metadata_path output_dir file_id).

(** ** Identifiers that are SHA-256 digests *)



(** ** What a failed write leaves *)

(** The file system after a block that raised: as it was when [open] raised,
    with the part written at [path] otherwise. *)
Definition partial_insert (path : string) (written : option string)
    (fs : gmap string string) : gmap string string :=
  match written with
  | None => fs
  | Some text => <[path := text]> fs
  end.

(** ** [create_collection.py] *)

(** ["https://www.virustotal.com/gui/collection/%s" % collection_id], for a
    [collection_id] that is a [str]. *)
Definition generate_ui_link (collection_id : string) : string :=
  "https://www.virustotal.com/gui/collection/" +:+ collection_id.

(** ** Workers waiting in [get] *)




(** The objects a worker task holds. *)
Definition held (t : worker_state) : list Object :=
  match t with
  | WGetAsync file_obj _ => [file_obj]
  | WRead file_obj => [file_obj]
  | _ => []
  end.

(** Whatever is in the queue, in a worker's hands or printed came through
    [put]. *)
Definition all_from_queue (w : World) : Prop :=
  (forall o, In o (_queue (self w)) -> In o (enqueued w)) /\
  (forall t o, In t (_worker_tasks w) -> In o (held t) -> In o (enqueued w)) /\
  (forall file_id, In file_id (stdout w) -> In file_id (map id (enqueued w))).
(** * Properties *)

(** ** Schedules *)

Lemma exec_app (s1 s2 : list event) (w : World) :
  exec (s1 ++ s2) w =
  match exec s1 w with
  | Some w1 => exec s2 w1
  | None => None
  end.
Proof.
  revert w. induction s1 as [|e s1 IH]; intros w; simpl; [reflexivity|].
  destruct (step e w); [apply IH | reflexivity].
Qed.

(** A property kept by every step holds after every schedule. *)
Lemma exec_invariant (P : World -> Prop) :
  (forall e w w', P w -> step e w = Some w' -> P w') ->
  forall sched w w', P w -> exec sched w = Some w' -> P w'.
Proof.
  intros Hstep sched. induction sched as [|e sched IH]; intros w w' HP Hex; simpl in Hex.
  - congruence.
  - destruct (step e w) as [w1|] eqn:E; [|discriminate].
    eapply IH; [|exact Hex]. eapply Hstep; eauto.
Qed.

(** Whatever [run_until_complete] ends with was reached by a prefix of the
    schedule. *)
Lemma run_until_complete_exec (sched : list event) (w w' : World) :
  run_until_complete sched w = Returned w' \/
  run_until_complete sched w = Raised w' \/
  run_until_complete sched w = Blocked w' ->
  exists s1 s2, sched = s1 ++ s2 /\ exec s1 w = Some w'.
Proof.
  revert w. induction sched as [|e sched IH]; intros w H; simpl in H.
  - exists [], []. split; [reflexivity|]. simpl.
    destruct (existsb is_raised (_worker_tasks w));
      [|destruct (forallb is_done (_worker_tasks w) && started (producer_task w))];
      destruct H as [H|[H|H]]; congruence.
  - destruct (existsb is_raised (_worker_tasks w)) eqn:E1.
    { exists [], (e :: sched). split; [reflexivity|]. simpl.
      destruct H as [H|[H|H]]; congruence. }
    destruct (step e w) as [w1|] eqn:E3.
    + destruct (IH w1 H) as (s1 & s2 & -> & Hex).
      exists (e :: s1), s2. split; [reflexivity|]. simpl. rewrite E3. exact Hex.
    + destruct H as [H|[H|H]]; discriminate.
Qed.

(** ** Case analysis of one step *)

Ltac destruct_match_in H :=
  repeat match type of H with
    | context [match ?x with _ => _ end] =>
        let E := fresh "E" in destruct x eqn:E; try discriminate H
    end.

Ltac destruct_match_goal :=
  repeat match goal with
    | |- context [match ?x with _ => _ end] =>
        let E := fresh "E" in destruct x eqn:E
    end.

Ltac step_inv H :=
  unfold step in H; destruct_match_in H;
  try (injection H as H); subst.

Ltac unfold_code :=
  unfold write_and_continue, write_partial, loop_head, get_and_continue,
    put_and_continue, feed_yield, feed_open in *.

(** ** The queue bound *)

Lemma full_false_lt (n : Z) (q : list Object) :
  1 <= n -> full n q = false -> Z.of_nat (length q) < n.
Proof.
  unfold full. intros Hn H.
  destruct (Z.leb_spec n 0); [lia|].
  destruct (Z.leb_spec n (Z.of_nat (length q))); [discriminate | lia].
Qed.

Lemma step_queue_bounded (n : Z) (e : event) (w w' : World) :
  1 <= n -> queue_bounded n w -> step e w = Some w' -> queue_bounded n w'.
Proof.
  intros Hn [Hw Hq] H. unfold queue_bounded.
  step_inv H; unfold_code; simpl; destruct_match_goal; simpl in *;
    repeat match goal with
      | E : _queue _ = _ |- _ => rewrite E in *
      | E : full _ _ = false |- _ => apply (full_false_lt _ _ Hn) in E
      end;
    simpl in *; rewrite ?length_app in *; simpl in *; try (split; [lia | lia]);
    subst; try (split; lia).
Qed.

(** ** The cursor *)

Lemma last_position_snoc (c0 : option string) (ys : list (Object * string))
    (file_obj : Object) (position : string) :
  last_position c0 (ys ++ [(file_obj, position)]) = Some position.
Proof. unfold last_position. rewrite last_snoc. reflexivity. Qed.

Lemma step_cursor_inv (c0 : option string) (e : event) (w w' : World) :
  cursor_inv c0 w -> step e w = Some w' -> cursor_inv c0 w'.
Proof.
  unfold cursor_inv. intros Hinv H.
  step_inv H; unfold_code; simpl in *; destruct_match_goal; simpl in *;
    repeat match goal with
      | E : producer_task _ = _ |- _ => rewrite E in *
      end;
    simpl in *; rewrite ?last_position_snoc;
    try discriminate; try tauto; try (destruct Hinv; split; congruence);
    try (destruct Hinv; congruence).
  destruct Hinv as [Hc Hy]. rewrite Hy. split; [exact Hc|]. rewrite Hc. reflexivity.
Qed.

Lemma start_cursor_inv (apikey output_dir : string) (num_workers : Z)
    (c0 : option string) (fs : gmap string string) :
  cursor_inv c0 (start apikey output_dir num_workers c0 fs).
Proof. unfold cursor_inv. simpl. auto. Qed.

(** When the producer's loop is over, the stored cursor is the position of
    the last item the feed yielded. *)
Lemma cursor_when_producer_done (apikey output_dir : string) (num_workers : Z)
    (c0 : option string) (fs : gmap string string) (sched : list event) (w : World) :
  exec sched (start apikey output_dir num_workers c0 fs) = Some w ->
  producer_task w = PDone ->
  cursor (self w) = last_position c0 (yielded w).
Proof.
  intros Hex Hd.
  assert (Hinv : cursor_inv c0 w).
  { eapply (exec_invariant (cursor_inv c0)); [| |exact Hex].
    - intros e w1 w2. apply step_cursor_inv.
    - apply start_cursor_inv. }
  unfold cursor_inv in Hinv. rewrite Hd in Hinv. exact Hinv.
Qed.

(** A step that changes the stored cursor is the one that ends the
    producer's loop. *)
Lemma step_cursor_frame (e : event) (w w' : World) :
  step e w = Some w' ->
  producer_event e = false \/ producer_task w' <> PDone ->
  _cursor (self w') = _cursor (self w).
Proof.
  intros H Hor.
  step_inv H; unfold_code; simpl in *; destruct_match_goal; simpl in *;
    try reflexivity;
    destruct Hor as [Hor|Hor]; try discriminate Hor; try (exfalso; apply Hor; reflexivity).
Qed.

(** ** The tasks of [run] *)

Lemma step_worker_count (e : event) (w w' : World) :
  step e w = Some w' ->
  length (_worker_tasks w') = length (_worker_tasks w) /\
  _num_workers (self w') = _num_workers (self w).
Proof.
  intros H.
  step_inv H; unfold_code; simpl in *; destruct_match_goal; simpl in *;
    rewrite ?length_insert; auto.
Qed.

Lemma exec_worker_count (sched : list event) (w w' : World) :
  exec sched w = Some w' ->
  length (_worker_tasks w') = length (_worker_tasks w) /\
  _num_workers (self w') = _num_workers (self w).
Proof.
  revert w. induction sched as [|e sched IH]; intros w H; simpl in H.
  - injection H as <-. auto.
  - destruct (step e w) as [w1|] eqn:E; [|discriminate].
    destruct (step_worker_count _ _ _ E) as [H1 H2].
    destruct (IH _ H) as [H3 H4]. split; congruence.
Qed.

Lemma run_until_complete_returned (sched : list event) (w w' : World) :
  run_until_complete sched w = Returned w' ->
  forallb is_done (_worker_tasks w') = true.
Proof.
  revert w. induction sched as [|e sched IH]; intros w H; simpl in H.
  - destruct (existsb is_raised (_worker_tasks w)); [discriminate|].
    destruct (forallb is_done (_worker_tasks w)) eqn:E; [|discriminate].
    destruct (started (producer_task w)); [|discriminate].
    injection H as <-. exact E.
  - destruct (existsb is_raised (_worker_tasks w)); [discriminate|].
    destruct (step e w) as [w1|]; [eauto | discriminate].
Qed.

(** [run] returns in the state the whole schedule leads to, and the
    producer task has started by then. *)
Lemma run_until_complete_returned_exec (sched : list event) (w w' : World) :
  run_until_complete sched w = Returned w' ->
  exec sched w = Some w' /\ started (producer_task w') = true.
Proof.
  revert w. induction sched as [|e sched IH]; intros w H; simpl in H.
  - destruct (existsb is_raised (_worker_tasks w)); [discriminate|].
    destruct (forallb is_done (_worker_tasks w)); [|discriminate].
    destruct (started (producer_task w)) eqn:E; [|discriminate].
    injection H as <-. split; [reflexivity | exact E].
  - destruct (existsb is_raised (_worker_tasks w)); [discriminate|].
    simpl. destruct (step e w) as [w1|]; [eauto | discriminate].
Qed.

(** ** Workers left waiting *)

Lemma step_stranded (e : event) (w w' : World) :
  stranded w -> step e w = Some w' -> stranded w'.
Proof.
  intros (Hp & Hq & Hne & Hall) H.
  assert (Hget : forall i t, _worker_tasks w !! i = Some t -> t = WGet).
  { intros i t Hi. rewrite Forall_lookup in Hall. eapply Hall; eauto. }
  destruct e; simpl in H.
  - injection H as <-. repeat split; assumption.
  - destruct Hp as [Hp|Hp]; rewrite Hp in H; discriminate.
  - destruct Hp as [Hp|Hp]; rewrite Hp in H; discriminate.
  - destruct (_worker_tasks w !! i) as [t|] eqn:E; [|discriminate].
    rewrite (Hget _ _ E) in H. rewrite Hq in H. discriminate.
  - destruct (_worker_tasks w !! i) as [t|] eqn:E; [|discriminate].
    rewrite (Hget _ _ E) in H. discriminate.
  - destruct (_worker_tasks w !! i) as [t|] eqn:E; [|discriminate].
    rewrite (Hget _ _ E) in H. discriminate.
Qed.

(** From such a state no schedule makes [run] return or raise. *)
Lemma stranded_never_completes (sched : list event) (w : World) :
  stranded w ->
  forall w', run_until_complete sched w <> Returned w' /\
             run_until_complete sched w <> Raised w'.
Proof.
  revert w. induction sched as [|e sched IH]; intros w Hs w'.
  - destruct Hs as (_ & _ & Hne & Hall). simpl.
    destruct (_worker_tasks w) as [|t ts]; [congruence|].
    inversion Hall as [|? ? Ht Hts]; subst. simpl.
    assert (Hr : existsb is_raised ts = false).
    { clear -Hts. induction Hts as [|t ts Ht _ IH]; [reflexivity|].
      subst. simpl. exact IH. }
    rewrite Hr. simpl. split; discriminate.
  - pose proof Hs as (_ & _ & Hne & Hall). simpl.
    destruct (_worker_tasks w) as [|t ts] eqn:Ew; [congruence|].
    inversion Hall as [|? ? Ht Hts]; subst. simpl.
    assert (Hr : existsb is_raised ts = false).
    { clear -Hts. induction Hts as [|t ts Ht _ IH]; [reflexivity|].
      subst. simpl. exact IH. }
    rewrite Hr. simpl.
    destruct (step e w) as [w1|] eqn:E; [|split; discriminate].
    apply IH. eapply step_stranded; eauto.
Qed.

Lemma step_producer_raised (e : event) (w w' : World) :
  producer_task w = PRaised -> step e w = Some w' -> producer_task w' = PRaised.
Proof.
  intros Hp H.
  step_inv H; unfold_code; simpl in *; destruct_match_goal; simpl in *;
    congruence.
Qed.

(** ** A worker that raises *)

Lemma existsb_is_raised_insert (i : nat) (ts : list worker_state) :
  (i < length ts)%nat -> existsb is_raised (<[i := WRaised]> ts) = true.
Proof.
  intros Hi. apply existsb_exists. exists WRaised. split; [|reflexivity].
  apply list_elem_of_In. apply list_elem_of_lookup. exists i.
  apply list_lookup_insert_eq. exact Hi.
Qed.

Lemma run_until_complete_raised (sched : list event) (w : World) :
  existsb is_raised (_worker_tasks w) = true ->
  run_until_complete sched w = Raised w.
Proof. intros H. destruct sched; simpl; rewrite H; reflexivity. Qed.

(** ** The producer once it has returned *)

Lemma step_producer_done (e : event) (w w' : World) :
  producer_task w = PDone -> step e w = Some w' ->
  producer_task w' = PDone /\ enqueued w' = enqueued w /\
  yielded w' = yielded w /\ feed_cursor w' = feed_cursor w.
Proof.
  intros Hp H.
  step_inv H; unfold_code; simpl in *; destruct_match_goal; simpl in *;
    try congruence; auto.
Qed.

Lemma exec_producer_done (sched : list event) (w w' : World) :
  producer_task w = PDone -> exec sched w = Some w' ->
  producer_task w' = PDone /\ enqueued w' = enqueued w /\
  yielded w' = yielded w /\ feed_cursor w' = feed_cursor w.
Proof.
  revert w. induction sched as [|e sched IH]; intros w Hp H; simpl in H.
  - injection H as <-. auto.
  - destruct (step e w) as [w1|] eqn:E; [|discriminate].
    destruct (step_producer_done _ _ _ Hp E) as (H1 & H2 & H3 & H4).
    destruct (IH _ H1 H) as (H5 & H6 & H7 & H8).
    repeat split; congruence.
Qed.

Lemma app_singleton_neq {A : Type} (l : list A) (x : A) : l ++ [x] <> l.
Proof.
  intros H. apply (f_equal length) in H. rewrite length_app in H. simpl in H. lia.
Qed.

(** ** Strings and paths *)

Lemma list_ascii_of_string_app (a b : string) :
  String.list_ascii_of_string (a +:+ b) =
  String.list_ascii_of_string a ++ String.list_ascii_of_string b.
Proof. induction a as [|c a IH]; simpl; [reflexivity | rewrite IH; reflexivity]. Qed.

Lemma list_ascii_of_string_inj (a b : string) :
  String.list_ascii_of_string a = String.list_ascii_of_string b -> a = b.
Proof.
  intros H. rewrite <- (String.string_of_list_ascii_of_string a),
    <- (String.string_of_list_ascii_of_string b), H. reflexivity.
Qed.

Lemma string_app_assoc (a b c : string) : (a +:+ b) +:+ c = a +:+ (b +:+ c).
Proof.
  apply list_ascii_of_string_inj. rewrite !list_ascii_of_string_app.
  symmetry. apply app_assoc.
Qed.

Lemma string_app_inv_tail (a b c : string) : a +:+ c = b +:+ c -> a = b.
Proof.
  intros H. apply list_ascii_of_string_inj.
  apply (f_equal String.list_ascii_of_string) in H.
  rewrite !list_ascii_of_string_app in H.
  eapply app_inv_tail. exact H.
Qed.

Lemma string_app_inv_head (a b c : string) : a +:+ b = a +:+ c -> b = c.
Proof. induction a as [|x a IH]; simpl; intros H; [exact H | injection H as H; auto]. Qed.

Lemma path_join_relative (output_dir file_id : string) :
  startswith_sep file_id = false ->
  path_join output_dir file_id = dir_prefix output_dir +:+ file_id.
Proof.
  intros H. unfold path_join, dir_prefix. rewrite H.
  destruct output_dir as [|c d]; [reflexivity|].
  destruct (endswith_sep (String c d)); [reflexivity|].
  symmetry. apply string_app_assoc.
Qed.

(** ** How a worker task gets to [WDone] *)

Lemma insert_lookup_done (i j : nat) (t : worker_state) (ts : list worker_state) :
  t <> WDone -> <[j := t]> ts !! i = Some WDone -> ts !! i = Some WDone.
Proof.
  intros Ht H. destruct (decide (j = i)) as [->|Hne].
  - apply list_lookup_insert_Some in H.
    destruct H as [(_ & H & _)|(H & _)]; [congruence | congruence].
  - rewrite list_lookup_insert_ne in H by exact Hne. exact H.
Qed.

Lemma get_and_continue_done (i j : nat) (w : World) :
  _worker_tasks (get_and_continue j w) !! i = Some WDone ->
  _worker_tasks w !! i = Some WDone.
Proof.
  unfold get_and_continue.
  destruct (_queue (self w)) as [|o q]; simpl.
  - apply insert_lookup_done. discriminate.
  - destruct (getitem (context_attributes o) "download_url"); simpl;
      apply insert_lookup_done; discriminate.
Qed.

Lemma loop_head_done (i j : nat) (w : World) :
  _worker_tasks (loop_head j w) !! i = Some WDone ->
  _worker_tasks w !! i = Some WDone \/
  (_aborted (self w) = true /\ _queue (self w) = [] /\
   _queue (self (loop_head j w)) = []).
Proof.
  unfold loop_head.
  destruct (_aborted (self w)) eqn:Ea; simpl.
  - destruct (_queue (self w)) as [|o q] eqn:Eq; simpl.
    + intros _. right. auto.
    + intros H. left. eapply get_and_continue_done. exact H.
  - intros H. left. eapply get_and_continue_done. exact H.
Qed.

Lemma put_and_continue_workers (file_obj : Object) (w : World) :
  _worker_tasks (put_and_continue file_obj w) = _worker_tasks w.
Proof.
  unfold put_and_continue.
  destruct (full _ _); simpl; [reflexivity|].
  destruct (_aborted (self w)); reflexivity.
Qed.

Lemma write_partial_workers (path : string) (written : option string) (w : World) :
  _worker_tasks (write_partial path written w) = _worker_tasks w.
Proof. destruct written; reflexivity. Qed.

Lemma write_partial_self (path : string) (written : option string) (w : World) :
  self (write_partial path written w) = self w.
Proof. destruct written; reflexivity. Qed.

Lemma write_partial_stdout (path : string) (written : option string) (w : World) :
  stdout (write_partial path written w) = stdout w.
Proof. destruct written; reflexivity. Qed.

Lemma step_worker_done (i : nat) (e : event) (w w' : World) :
  step e w = Some w' ->
  _worker_tasks w !! i <> Some WDone ->
  _worker_tasks w' !! i = Some WDone ->
  _aborted (self w) = true /\ _queue (self w) = [] /\ _queue (self w') = [].
Proof.
  intros Hs Hnd Hd.
  destruct e as [| |r|j|j ok|j data wr]; simpl in Hs.
  - injection Hs as <-. simpl in Hd. contradiction.
  - destruct (producer_task w); try discriminate.
    + injection Hs as <-. simpl in Hd. contradiction.
    + destruct (full _ _); [discriminate|]. injection Hs as <-.
      rewrite put_and_continue_workers in Hd. contradiction.
  - destruct (producer_task w); try discriminate.
    destruct r; injection Hs as <-.
    + rewrite put_and_continue_workers in Hd. simpl in Hd. contradiction.
    + simpl in Hd. contradiction.
    + simpl in Hd. contradiction.
  - destruct (_worker_tasks w !! j) as [t|]; [|discriminate].
    destruct t; try discriminate.
    + injection Hs as <-.
      destruct (loop_head_done _ _ _ Hd) as [H|H]; [contradiction | exact H].
    + destruct (empty _); [discriminate|]. injection Hs as <-.
      apply get_and_continue_done in Hd. contradiction.
  - destruct (_worker_tasks w !! j) as [t|]; [|discriminate].
    destruct t; try discriminate. injection Hs as <-. simpl in Hd.
    apply insert_lookup_done in Hd; [contradiction|].
    destruct ok; discriminate.
  - destruct (_worker_tasks w !! j) as [t|]; [|discriminate].
    destruct t; try discriminate.
    destruct data as [data|].
    + destruct (write_possible _ _ _); [|discriminate]. injection Hs as <-.
      unfold write_and_continue in *. destruct wr as [|written|written].
      * destruct (loop_head_done _ _ _ Hd) as [H|H]; [contradiction | exact H].
      * simpl in Hd. rewrite write_partial_workers in Hd.
        apply insert_lookup_done in Hd; [contradiction | discriminate].
      * simpl in Hd. rewrite write_partial_workers in Hd.
        apply insert_lookup_done in Hd; [contradiction | discriminate].
    + injection Hs as <-. simpl in Hd.
      apply insert_lookup_done in Hd; [contradiction | discriminate].
Qed.

(** ** [json.loads] reads back what [json.dumps] writes *)

Import Json.

Lemma string_cons_app (c : Ascii.ascii) (s t : string) :
  String c s +:+ t = String c (s +:+ t).
Proof. reflexivity. Qed.







Lemma scanstring_quote (rest : string) :
  scanstring (String (chr quote) rest) = Some ([], rest).
Proof. reflexivity. Qed.


Lemma scanstring_backslash (e : Ascii.ascii) (ch : N) (t : string) :
  is_char e 117 = false -> backslash_char e = Some ch ->
  scanstring (String (chr backslash) (String e t)) = cons_char ch (scanstring t).
Proof.
  intros H1 H2. simpl. rewrite H1, H2. reflexivity.
Qed.












(** *** Numbers *)








































Lemma string_length_app (a b : string) :
  String.length (a +:+ b) = (String.length a + String.length b)%nat.
Proof. induction a as [|c a IH]; [reflexivity|]. rewrite string_cons_app. simpl. rewrite IH. reflexivity. Qed.








(** *** What [json.dumps] writes is ASCII *)













(** ** The files a worker writes *)

Lemma loop_head_files (i : nat) (w : World) : files (loop_head i w) = files w.
Proof.
  unfold loop_head, get_and_continue.
  destruct (negb (_aborted (self w)) || negb (empty (_queue (self w))));
    [|reflexivity].
  destruct (_queue (self w)) as [|o q]; [reflexivity|]. simpl.
  destruct (getitem (context_attributes o) "download_url"); reflexivity.
Qed.

Lemma string_app_neq_self (a b : string) : b <> EmptyString -> a <> a +:+ b.
Proof.
  intros Hb H. apply (f_equal String.length) in H.
  rewrite string_length_app in H. destruct b; [congruence|]. simpl in H. lia.
Qed.

(** * The claims *)

(** C7: for every worker count [num_workers >= 1], in every state a run can
    reach, the queue holds at most [num_workers] items (its capacity); and
    when the queue is full, [put] adds nothing and leaves the producer
    suspended: it can go on only once the queue is no longer full. *)
Theorem C7_queue_never_exceeds_capacity
    (apikey output_dir : string) (num_workers : Z) (cursor0 : option string)
    (fs : gmap string string) (sched : list event) (w : World) :
  1 <= num_workers ->
  exec sched (start apikey output_dir num_workers cursor0 fs) = Some w ->
  Z.of_nat (length (_queue (self w))) <= num_workers /\
  (Z.of_nat (length (_queue (self w))) = num_workers ->
   forall file_obj,
     put_and_continue file_obj w = set_producer (PPut file_obj) w /\
     step ResumeProducer (set_producer (PPut file_obj) w) = None).
Proof.
  intros Hn Hex.
  assert (Hb : queue_bounded num_workers w).
  { eapply (exec_invariant (queue_bounded num_workers)); [| |exact Hex].
    - intros e w1 w2 Hw1 Hs. eapply step_queue_bounded; eauto.
    - split; simpl; [reflexivity | lia]. }
  destruct Hb as [HN Hlen]. split; [exact Hlen|].
  intros Hfull file_obj.
  assert (Hf : full (_num_workers (self w)) (_queue (self w)) = true).
  { unfold full. rewrite HN.
    destruct (Z.leb_spec num_workers 0); [lia|].
    apply Z.leb_le. lia. }
  split.
  - unfold put_and_continue. rewrite Hf. reflexivity.
  - unfold step. simpl. rewrite Hf. reflexivity.
Qed.

Lemma C7_witness :
  exists w, exec sample_schedule sample_start = Some w /\
            Z.of_nat (length (_queue (self w))) <= 2.
Proof.
  eexists. split; [vm_compute; reflexivity|].
  refine (proj1 (C7_queue_never_exceeds_capacity
                   "key" "out" 2 None ∅ sample_schedule _ _ _)).
  - lia.
  - vm_compute. reflexivity.
Defined.

(** C10: in every state a run can reach, (1) as long as the producer's loop
    has not finished, [cursor()] is the starting cursor given to the
    constructor; (2) [abort()] leaves the cursor as it is; (3) every step
    other than the one that ends the producer's loop (each worker step, the
    signal handler, a step of the producer that enqueues an item and goes
    on) leaves the stored cursor as it is. *)
Theorem C10_cursor_changes_only_when_producer_loop_ends
    (apikey output_dir : string) (num_workers : Z) (cursor0 : option string)
    (fs : gmap string string) (sched : list event) (w : World) :
  exec sched (start apikey output_dir num_workers cursor0 fs) = Some w ->
  (producer_task w <> PDone -> cursor (self w) = cursor0) /\
  cursor (abort (self w)) = cursor (self w) /\
  (forall e w', step e w = Some w' ->
     producer_event e = false \/ producer_task w' <> PDone ->
     cursor (self w') = cursor (self w)).
Proof.
  intros Hex. split; [|split].
  - intros Hnd.
    assert (Hinv : cursor_inv cursor0 w).
    { eapply (exec_invariant (cursor_inv cursor0)); [| |exact Hex].
      - intros e w1 w2. apply step_cursor_inv.
      - apply start_cursor_inv. }
    unfold cursor_inv in Hinv. unfold cursor.
    destruct (producer_task w); try tauto.
  - reflexivity.
  - intros e w' Hs Hor. unfold cursor. eapply step_cursor_frame; eauto.
Qed.

Lemma C10_witness :
  exists w, exec sample_schedule sample_start = Some w /\ cursor (self w) = None.
Proof.
  eexists. split; [vm_compute; reflexivity|].
  refine (proj1 (C10_cursor_changes_only_when_producer_loop_ends
                   "key" "out" 2 None ∅ sample_schedule _ _) _).
  - vm_compute. reflexivity.
  - vm_compute. discriminate.
Defined.

(** C1 (the code at a failing input): one worker, no starting cursor.  The
    feed yields object [a] at position [p1]; SIGINT arrives while the
    producer waits for the next object.  The worker finishes [a] and leaves
    its loop, [run] returns, and [cursor()] still is [None] although the last
    object the producer yielded and enqueued has position [p1]. *)
Theorem C1_cursor_not_updated_when_run_returns_first :
  exists w,
    run interrupted_schedule (__init__ "key" "out" 1 None) ∅ = Returned w /\
    map snd (yielded w) = ["p1"] /\
    map id (enqueued w) = ["a"] /\
    stdout w = ["a"] /\
    producer_task w = PNext /\
    cursor (self w) = None.
Proof.
  eexists. split; [vm_compute; reflexivity|].
  vm_compute. repeat split; reflexivity.
Qed.

(** C6 fails as stated: [run] returns while the producer task is still
    suspended in its request to the feed. *)
Lemma C6_counterexample :
  ~ (forall sched self0 fs w,
       run sched self0 fs = Returned w ->
       forallb is_done (_worker_tasks w) = true /\
       (producer_task w = PDone \/ producer_task w = PRaised)).
Proof.
  intros H.
  assert (Hr : exists w,
             run interrupted_schedule (__init__ "key" "out" 1 None) ∅ = Returned w /\
             producer_task w = PNext).
  { eexists. split; [vm_compute; reflexivity | reflexivity]. }
  destruct Hr as (w & Hr & Hp).
  destruct (H _ _ _ _ Hr) as [_ [Hd|Hd]]; rewrite Hp in Hd; discriminate Hd.
Qed.

(** C6 (amended): when [run] returns, every one of the [num_workers] worker
    tasks has left its loop and returned; nothing is said of the producer
    task. *)
Theorem C6_run_returns_when_all_workers_done
    (sched : list event) (self0 : FeedReader) (fs : gmap string string)
    (w : World) :
  run sched self0 fs = Returned w ->
  length (_worker_tasks w) = Z.to_nat (_num_workers self0) /\
  Forall (fun t => t = WDone) (_worker_tasks w).
Proof.
  unfold run. intros H. split.
  - destruct (run_until_complete_exec sched _ w (or_introl H))
      as (s1 & s2 & _ & Hex).
    destruct (exec_worker_count _ _ _ Hex) as [Hl _].
    rewrite Hl. simpl. apply length_replicate.
  - apply run_until_complete_returned in H.
    rewrite forallb_forall in H. apply Forall_forall.
    intros t Ht. apply list_elem_of_In in Ht. specialize (H t Ht).
    destruct t; simpl in H; try discriminate. reflexivity.
Qed.

Lemma C6_witness :
  exists w,
    run interrupted_schedule (__init__ "key" "out" 1 None) ∅ = Returned w /\
    length (_worker_tasks w) = 1%nat /\
    Forall (fun t => t = WDone) (_worker_tasks w).
Proof.
  eexists. split; [vm_compute; reflexivity|].
  apply (C6_run_returns_when_all_workers_done
           interrupted_schedule (__init__ "key" "out" 1 None) ∅).
  vm_compute. reflexivity.
Defined.

(** C2 fails as stated: the feed's request fails, the producer task ends,
    the abort flag is still clear, and the worker, suspended in [get], never
    terminates: no schedule makes [run] return. *)
Lemma C2_counterexample :
  exists w,
    exec feed_error_schedule (start "key" "out" 1 None ∅) = Some w /\
    producer_task w = PRaised /\
    _aborted (self w) = false /\
    forall sched w', run_until_complete sched w <> Returned w'.
Proof.
  eexists. split; [vm_compute; reflexivity|].
  split; [reflexivity|]. split; [reflexivity|].
  intros sched w'. apply stranded_never_completes.
  repeat split.
  - right. reflexivity.
  - discriminate.
  - repeat constructor.
Qed.

(** C2 (amended): when the producer's request to the feed fails, the
    producer task ends with the error and leaves the reader object (abort
    flag, cursor, queue) and the worker tasks as they were.  Afterwards, once
    the queue is empty and every worker is suspended in [get], no schedule,
    with or without SIGINT, makes [run] return or raise. *)
Theorem C2_feed_error_leaves_abort_flag (w : World) :
  producer_task w = PNext ->
  exists w',
    step (FeedAnswers FeedError) w = Some w' /\
    producer_task w' = PRaised /\
    self w' = self w /\
    _worker_tasks w' = _worker_tasks w /\
    forall sched w2,
      exec sched w' = Some w2 ->
      _queue (self w2) = [] ->
      _worker_tasks w2 <> [] ->
      Forall (fun t => t = WGet) (_worker_tasks w2) ->
      forall sched2 w3,
        run_until_complete sched2 w2 <> Returned w3 /\
        run_until_complete sched2 w2 <> Raised w3.
Proof.
  intros Hp. exists (set_producer PRaised w).
  split; [simpl; rewrite Hp; reflexivity|].
  split; [reflexivity|]. split; [reflexivity|]. split; [reflexivity|].
  intros sched w2 Hex Hq Hne Hall sched2 w3.
  apply stranded_never_completes. repeat split; try assumption.
  right.
  eapply (exec_invariant (fun w => producer_task w = PRaised)); [| |exact Hex].
  - intros e w1 w1' H1 Hs. eapply step_producer_raised; eauto.
  - reflexivity.
Qed.

Lemma C2_witness :
  exists w',
    step (FeedAnswers FeedError)
      (set_producer PNext (feed_open (start "key" "out" 1 None ∅))) = Some w' /\
    producer_task w' = PRaised /\
    _aborted (self w') = false.
Proof.
  destruct (C2_feed_error_leaves_abort_flag
              (set_producer PNext (feed_open (start "key" "out" 1 None ∅)))
              eq_refl) as (w' & Hs & Hp & Hself & _).
  exists w'. split; [exact Hs|]. split; [exact Hp|].
  rewrite Hself. reflexivity.
Defined.

(** C3 fails as stated: the download of object [a] fails in worker 0; the
    worker task ends with the exception while object [b] is still queued,
    nothing is printed for [a], and [run] raises. *)
Lemma C3_counterexample :
  exists w,
    run download_error_schedule (__init__ "key" "out" 2 None) ∅ = Raised w /\
    _worker_tasks w !! 0%nat = Some WRaised /\
    map id (_queue (self w)) = ["b"] /\
    stdout w = [].
Proof.
  eexists. split; [vm_compute; reflexivity|].
  vm_compute. repeat split; reflexivity.
Qed.

(** C3 (amended): a failed download ([get_async] or [read] raises) or a
    failed write ends the task of the worker it happens in: nothing is
    printed for the item, the queue is left as it is, and [run] raises.
    When download and both writes succeed, the item's identifier is printed
    and the same worker is back at the head of its loop. *)
Theorem C3_item_failure_ends_worker (i : nat) (e : event) (w w' : World) :
  step e w = Some w' ->
  (failure_of i e = true ->
     _worker_tasks w' !! i = Some WRaised /\
     stdout w' = stdout w /\
     _queue (self w') = _queue (self w) /\
     forall sched, run_until_complete sched w' = Raised w') /\
  (forall data, e = ReadReturns i (Some data) WriteOk ->
     exists file_obj w1,
       _worker_tasks w !! i = Some (WRead file_obj) /\
       stdout w1 = stdout w ++ [id file_obj] /\
       files w1 !! content_path (_output_dir (self w)) (id file_obj) = Some data /\
       w' = loop_head i w1 /\
       stdout w' = stdout w ++ [id file_obj]).
Proof.
  intros H. split.
  - intros Hf.
    destruct e as [| |r|j|j ok|j data wr]; simpl in Hf; try discriminate.
    + destruct ok; [discriminate|]. apply Nat.eqb_eq in Hf. subst j.
      simpl in H. destruct (_worker_tasks w !! i) as [t|] eqn:E; [|discriminate].
      destruct t; try discriminate. injection H as <-. simpl.
      pose proof (lookup_lt_Some _ _ _ E) as Hlt.
      repeat split; try reflexivity.
      * apply list_lookup_insert_eq. exact Hlt.
      * intros sched. apply run_until_complete_raised. simpl.
        apply existsb_is_raised_insert. exact Hlt.
    + simpl in H. destruct (_worker_tasks w !! j) as [t|] eqn:E; [|discriminate].
      destruct t; try discriminate.
      pose proof (lookup_lt_Some _ _ _ E) as Hlt.
      assert (Hij : i = j).
      { destruct data as [d|]; [destruct wr|]; try discriminate;
          apply Nat.eqb_eq in Hf; exact Hf. }
      subst j.
      destruct data as [d|]; [destruct wr as [|written|written]|];
        try discriminate;
        try (destruct (write_possible _ _ _); [|discriminate]);
        injection H as <-; unfold write_and_continue; simpl;
        rewrite ?write_partial_workers, ?write_partial_stdout,
          ?write_partial_self; simpl;
        (repeat split; try reflexivity;
         [ apply list_lookup_insert_eq; exact Hlt
         | intros sched; apply run_until_complete_raised; simpl;
           rewrite ?write_partial_workers; simpl;
           apply existsb_is_raised_insert; exact Hlt ]).
  - intros data ->. simpl in H.
    destruct (_worker_tasks w !! i) as [t|] eqn:E; [|discriminate].
    destruct t; try discriminate. injection H as <-.
    unfold write_and_continue.
    exists file_obj.
    exists (print (id file_obj)
              (write_file (path_join (_output_dir (self w)) (id file_obj)) data
                 (write_file (path_join (_output_dir (self w)) (id file_obj) +:+ ".json")
                    (Json.dumps (to_dict file_obj)) w))).
    split; [reflexivity|].
    split; [reflexivity|]. split; [|split; [reflexivity|]].
    + simpl. unfold content_path. apply lookup_insert_eq.
    + unfold_code. simpl. destruct_match_goal; reflexivity.
Qed.

Lemma C3_witness :
  exists w w',
    exec [ResumeProducer; FeedAnswers (Item (sample_object "a") "p1");
          ResumeWorker 0] sample_start = Some w /\
    step (GetAsyncReturns 0 false) w = Some w' /\
    _worker_tasks w' !! 0%nat = Some WRaised /\
    stdout w' = stdout w.
Proof.
  eexists. eexists. split; [vm_compute; reflexivity|].
  split; [vm_compute; reflexivity|].
  match goal with
  | |- _ !! _ = _ /\ stdout ?w' = stdout ?w =>
      assert (Hs : step (GetAsyncReturns 0 false) w = Some w')
        by (vm_compute; reflexivity);
      destruct (proj1 (C3_item_failure_ends_worker 0 (GetAsyncReturns 0 false)
                         w w' Hs) eq_refl) as (H1 & H2 & _)
  end.
  split; [exact H1 | exact H2].
Defined.

(** Once every worker task has been ended by an exception and the queue is
    full, nothing changes the worker tasks or the queue any more. *)
Lemma exec_workers_raised (sched : list event) (w w' : World) :
  exec sched w = Some w' ->
  Forall (fun t => t = WRaised) (_worker_tasks w) ->
  full (_num_workers (self w)) (_queue (self w)) = true ->
  _worker_tasks w' = _worker_tasks w /\ _queue (self w') = _queue (self w).
Proof.
  intros Hex Hall Hfull.
  assert (H : _worker_tasks w' = _worker_tasks w /\
              _queue (self w') = _queue (self w) /\
              _num_workers (self w') = _num_workers (self w)).
  { refine (exec_invariant
              (fun w1 => _worker_tasks w1 = _worker_tasks w /\
                         _queue (self w1) = _queue (self w) /\
                         _num_workers (self w1) = _num_workers (self w))
              _ sched w w' _ Hex); [|auto].
    intros e w1 w2 (Hw & Hq & Hn) Hs.
    assert (Hget : forall j t, _worker_tasks w1 !! j = Some t -> t = WRaised).
    { intros j t Hj. rewrite Hw in Hj. rewrite Forall_lookup in Hall.
      eapply Hall; eauto. }
    destruct e as [| |r|j|j ok|j data wr]; simpl in Hs.
    - injection Hs as <-. auto.
    - destruct (producer_task w1); try discriminate.
      + injection Hs as <-. auto.
      + rewrite Hn, Hq, Hfull in Hs. discriminate.
    - destruct (producer_task w1); try discriminate.
      destruct r; injection Hs as <-; auto.
      unfold put_and_continue. simpl. rewrite Hn, Hq, Hfull. simpl. auto.
    - destruct (_worker_tasks w1 !! j) as [t|] eqn:E; [|discriminate].
      rewrite (Hget _ _ E) in Hs. discriminate.
    - destruct (_worker_tasks w1 !! j) as [t|] eqn:E; [|discriminate].
      rewrite (Hget _ _ E) in Hs. discriminate.
    - destruct (_worker_tasks w1 !! j) as [t|] eqn:E; [|discriminate].
      rewrite (Hget _ _ E) in Hs. discriminate. }
  destruct H as (H1 & H2 & _). auto.
Qed.

(** C4 fails as stated: with one worker, object [a] is being downloaded and
    object [b] is queued when the download of [a] raises.  The exception
    ends the worker's task: the worker has left its loop although the abort
    flag is clear and the queue holds [b], and no schedule takes [b] out of
    the queue afterwards. *)
Lemma C4_counterexample :
  exists w w',
    exec [ResumeProducer; ResumeWorker 0;
          FeedAnswers (Item (sample_object "a") "p1"); ResumeWorker 0;
          FeedAnswers (Item (sample_object "b") "p2")]
      (start "key" "out" 1 None ∅) = Some w /\
    step (GetAsyncReturns 0 false) w = Some w' /\
    _worker_tasks w' = [WRaised] /\
    _aborted (self w') = false /\
    map id (_queue (self w')) = ["b"] /\
    forall sched w2, exec sched w' = Some w2 ->
      _worker_tasks w2 = [WRaised] /\ _queue (self w2) = _queue (self w').
Proof.
  eexists. eexists. split; [vm_compute; reflexivity|].
  split; [vm_compute; reflexivity|].
  split; [reflexivity|]. split; [reflexivity|]. split; [reflexivity|].
  intros sched w2 Hex.
  apply (exec_workers_raised sched _ w2 Hex).
  - repeat constructor.
  - reflexivity.
Qed.

(** C4 (amended): a worker at the head of its loop returns exactly when the
    abort flag is set and the queue is empty, and no step makes a worker
    return in a state whose queue still holds an item.  Otherwise the worker
    calls [get]: on an empty queue it is suspended; on a queue that holds
    items it takes the oldest one out, leaves the other workers as they are,
    and goes on to download that item from its [download_url] (without one
    the [KeyError] ends the worker).  When the download and the writes of
    the item succeed, its two files are written, its identifier is printed
    and the worker is at the head of its loop again, with the flag and the
    queue as they are then.  (A worker whose task an exception ends leaves
    its loop whatever the flag and the queue.) *)
Theorem C4_worker_returns_iff_aborted_and_queue_empty (i : nat) (w : World) :
  (i < length (_worker_tasks w))%nat ->
  (_worker_tasks (loop_head i w) !! i = Some WDone <->
     _aborted (self w) = true /\ _queue (self w) = []) /\
  (_worker_tasks (loop_head i w) !! i <> Some WDone ->
     loop_head i w = get_and_continue i w /\
     (_queue (self w) = [] -> _worker_tasks (loop_head i w) !! i = Some WGet) /\
     (forall file_obj q, _queue (self w) = file_obj :: q ->
        _queue (self (loop_head i w)) = q)) /\
  (forall e w', step e w = Some w' ->
     _worker_tasks w !! i <> Some WDone ->
     _worker_tasks w' !! i = Some WDone ->
     _aborted (self w) = true /\ _queue (self w) = [] /\ _queue (self w') = []) /\
  (_queue (self w) = [] ->
     loop_head i w = set_worker i (if _aborted (self w) then WDone else WGet) w) /\
  (forall file_obj q, _queue (self w) = file_obj :: q ->
     _queue (self (loop_head i w)) = q /\
     _aborted (self (loop_head i w)) = _aborted (self w) /\
     files (loop_head i w) = files w /\
     stdout (loop_head i w) = stdout w /\
     (forall j, j <> i ->
        _worker_tasks (loop_head i w) !! j = _worker_tasks w !! j) /\
     _worker_tasks (loop_head i w) !! i =
       Some (match getitem (context_attributes file_obj) "download_url" with
             | Some download_url => WGetAsync file_obj download_url
             | None => WRaised
             end)) /\
  (forall file_obj download_url data w1 w2,
     _worker_tasks w !! i = Some (WGetAsync file_obj download_url) ->
     step (GetAsyncReturns i true) w = Some w1 ->
     step (ReadReturns i (Some data) WriteOk) w1 = Some w2 ->
     exists w3,
       w2 = loop_head i w3 /\
       self w3 = self w /\
       files w3 =
         <[content_path (_output_dir (self w)) (id file_obj) := data]>
           (<[metadata_path (_output_dir (self w)) (id file_obj) :=
                Json.dumps (to_dict file_obj)]> (files w)) /\
       stdout w3 = stdout w ++ [id file_obj] /\
       forall j, j <> i -> _worker_tasks w3 !! j = _worker_tasks w !! j).
Proof.
  intros Hi.
  assert (Hins : forall t, <[i := t]> (_worker_tasks w) !! i = Some t).
  { intros t. apply list_lookup_insert_eq. exact Hi. }
  split; [|split; [|split; [|split; [|split]]]].
  - unfold loop_head, get_and_continue.
    destruct (_aborted (self w)) eqn:Ea; destruct (_queue (self w)) as [|o q] eqn:Eq;
      simpl; rewrite ?Eq; simpl; destruct_match_goal; simpl; rewrite Hins;
      split; intros H; try (destruct H; congruence); try congruence; auto.
  - unfold loop_head, get_and_continue.
    destruct (_aborted (self w)) eqn:Ea; destruct (_queue (self w)) as [|o q] eqn:Eq;
      simpl; rewrite ?Eq; simpl; destruct_match_goal; simpl; rewrite ?Hins;
      intros H; try congruence;
      (split; [reflexivity|]; split; [intros; congruence|]);
      intros o' q' Ho; congruence.
  - intros e w' Hs Hnd Hd. eapply step_worker_done; eauto.
  - intros Hq. unfold loop_head, get_and_continue. rewrite Hq. simpl.
    destruct (_aborted (self w)); reflexivity.
  - intros file_obj q Hq.
    assert (Hh : loop_head i w =
                 set_worker i
                   (match getitem (context_attributes file_obj) "download_url" with
                    | Some download_url => WGetAsync file_obj download_url
                    | None => WRaised
                    end) (with_self (set_queue q) w)).
    { unfold loop_head, get_and_continue. rewrite Hq. simpl.
      rewrite orb_true_r.
      destruct (getitem (context_attributes file_obj) "download_url");
        reflexivity. }
    rewrite Hh. simpl. repeat split; try reflexivity.
    + intros j Hj. apply list_lookup_insert_ne. auto.
    + apply Hins.
  - intros file_obj download_url data w1 w2 Hw Hs1 Hs2.
    simpl in Hs1. rewrite Hw in Hs1. injection Hs1 as <-.
    simpl in Hs2. rewrite Hins in Hs2. injection Hs2 as <-.
    unfold write_and_continue. eexists. split; [reflexivity|]. simpl.
    repeat split; try reflexivity.
    intros j Hj. apply list_lookup_insert_ne. auto.
Qed.

Lemma C4_witness :
  exists w,
    exec [Sigint] (start "key" "out" 1 None ∅) = Some w /\
    _worker_tasks (loop_head 0 w) !! 0%nat = Some WDone.
Proof.
  eexists. split; [vm_compute; reflexivity|].
  refine (proj2 (proj1 (C4_worker_returns_iff_aborted_and_queue_empty 0 _ _)) _).
  - vm_compute. lia.
  - vm_compute. split; reflexivity.
Defined.

(** C5 fails as stated: [abort] runs before the producer task takes its
    first step.  The producer does not read the flag before its first
    request to the feed: it issues the request, takes object [a] from the
    feed and puts it in the queue, and only then reads the flag and
    returns. *)
Lemma C5_counterexample :
  exists w w1 w2,
    exec [Sigint] (start "key" "out" 1 None ∅) = Some w /\
    w = create_tasks (abort (__init__ "key" "out" 1 None)) ∅ /\
    _aborted (self w) = true /\
    step ResumeProducer w = Some w1 /\
    producer_task w1 = PNext /\
    enqueued w1 = [] /\
    step (FeedAnswers (Item (sample_object "a") "p1")) w1 = Some w2 /\
    map snd (yielded w2) = ["p1"] /\
    map id (enqueued w2) = ["a"] /\
    map id (_queue (self w2)) = ["a"] /\
    producer_task w2 = PDone.
Proof.
  eexists. eexists. eexists. split; [vm_compute; reflexivity|].
  split; [reflexivity|]. split; [reflexivity|].
  split; [vm_compute; reflexivity|].
  split; [reflexivity|]. split; [reflexivity|].
  split; [vm_compute; reflexivity|].
  repeat split; reflexivity.
Qed.

(** C5 (amended): in every step of a run, (1) if an item is enqueued, the abort flag
    is read right after the [put]: when it is set the producer leaves its
    loop and returns, when it is clear the producer requests the next item;
    (2) a request to the feed is issued only when the producer starts (the
    first request) or after such a check found the flag clear; (3) once the
    producer has left its loop, no schedule makes it enqueue an item or pull
    one from the feed. *)
Theorem C5_producer_checks_abort_after_each_put (e : event) (w w' : World) :
  step e w = Some w' ->
  (enqueued w' <> enqueued w ->
     producer_event e = true /\
     if _aborted (self w) then producer_task w' = PDone
     else producer_task w' = PNext) /\
  (producer_event e = true -> producer_task w' = PNext ->
     producer_task w = PCreated \/
     (_aborted (self w) = false /\ enqueued w' <> enqueued w)) /\
  (producer_task w' = PDone ->
     forall sched w2, exec sched w' = Some w2 ->
       producer_task w2 = PDone /\ enqueued w2 = enqueued w' /\
       yielded w2 = yielded w').
Proof.
  intros H. split; [|split].
  - intros Hne.
    step_inv H; unfold_code; simpl in *;
      repeat match goal with
        | H : context [match ?x with _ => _ end] |- _ =>
            let E := fresh "E" in destruct x eqn:E; simpl in H
        end;
      simpl in *; try (exfalso; apply Hne; reflexivity);
      destruct_match_goal; simpl in *; try congruence; auto.
  - intros He Hp.
    step_inv H; unfold_code; simpl in *; try discriminate;
      repeat match goal with
        | H : context [match ?x with _ => _ end] |- _ =>
            let E := fresh "E" in destruct x eqn:E; simpl in H
        end;
      simpl in *; try discriminate; auto;
      right; (split; [congruence | apply app_singleton_neq]).
  - intros Hp sched w2 Hex.
    destruct (exec_producer_done _ _ _ Hp Hex) as (H1 & H2 & H3 & _). auto.
Qed.

Lemma C5_witness :
  exists w w',
    exec [Sigint; ResumeProducer] (start "key" "out" 1 None ∅) = Some w /\
    step (FeedAnswers (Item (sample_object "a") "p1")) w = Some w' /\
    producer_task w' = PDone.
Proof.
  eexists. eexists. split; [vm_compute; reflexivity|].
  split; [vm_compute; reflexivity|].
  match goal with
  | |- producer_task ?w' = _ =>
      assert (Hs : step (FeedAnswers (Item (sample_object "a") "p1"))
                     (set_producer PNext
                        (feed_open (with_self abort (start "key" "out" 1 None ∅))))
                   = Some w')
        by (vm_compute; reflexivity);
      pose proof (proj1 (C5_producer_checks_abort_after_each_put _ _ w' Hs)) as H
  end.
  simpl in H. apply H. vm_compute. discriminate.
Defined.

(** C9 fails as stated: the identifiers [a] and [a.json] are distinct, and
    the content path of the second is the metadata path of the first. *)
Lemma C9_counterexample :
  ~ (forall output_dir id1 id2 : string,
       id1 <> id2 ->
       content_path output_dir id1 <> content_path output_dir id2 /\
       metadata_path output_dir id1 <> metadata_path output_dir id2 /\
       content_path output_dir id1 <> metadata_path output_dir id2 /\
       metadata_path output_dir id1 <> content_path output_dir id2).
Proof.
  intros H.
  destruct (H "out" "a" "a.json") as (_ & _ & _ & Hx); [discriminate|].
  apply Hx. reflexivity.
Qed.

(** C9 (amended): for two distinct identifiers that do not start with [/]
    and of which neither is the other followed by [.json], the two content
    paths and the two metadata paths are pairwise distinct. *)
Theorem C9_output_paths_distinct (output_dir id1 id2 : string) :
  startswith_sep id1 = false ->
  startswith_sep id2 = false ->
  id1 <> id2 ->
  id1 <> id2 +:+ ".json" ->
  id2 <> id1 +:+ ".json" ->
  content_path output_dir id1 <> content_path output_dir id2 /\
  metadata_path output_dir id1 <> metadata_path output_dir id2 /\
  content_path output_dir id1 <> metadata_path output_dir id2 /\
  metadata_path output_dir id1 <> content_path output_dir id2 /\
  content_path output_dir id1 <> metadata_path output_dir id1 /\
  content_path output_dir id2 <> metadata_path output_dir id2.
Proof.
  intros H1 H2 Hne H12 H21. unfold content_path, metadata_path.
  rewrite (path_join_relative _ _ H1), (path_join_relative _ _ H2).
  rewrite !string_app_assoc.
  repeat split; intros H; apply string_app_inv_head in H.
  - auto.
  - apply string_app_inv_tail in H. auto.
  - auto.
  - symmetry in H. auto.
  - apply (f_equal String.length) in H. revert H. clear.
    induction id1 as [|c s IH]; simpl; [discriminate | intros H; injection H as H; auto].
  - apply (f_equal String.length) in H. revert H. clear.
    induction id2 as [|c s IH]; simpl; [discriminate | intros H; injection H as H; auto].
Qed.

Lemma C9_witness :
  content_path "out" "a" <> content_path "out" "b" /\
  metadata_path "out" "a" <> metadata_path "out" "b" /\
  content_path "out" "a" <> metadata_path "out" "b" /\
  metadata_path "out" "a" <> content_path "out" "b" /\
  content_path "out" "a" <> metadata_path "out" "a" /\
  content_path "out" "b" <> metadata_path "out" "b".
Proof.
  apply (C9_output_paths_distinct "out" "a" "b");
    [reflexivity | reflexivity | discriminate | discriminate | discriminate].
Defined.




(** * Further properties of the pipeline *)

(** ** The queue is first in, first out *)

Lemma step_fifo (e : event) (w w' : World) (taken : list Object) :
  step e w = Some w' ->
  enqueued w = taken ++ _queue (self w) ->
  enqueued w' =
  (taken ++ match got e w with
            | Some g => [snd g]
            | None => []
            end) ++ _queue (self w').
Proof.
  intros H Hq. unfold got, loop_gets.
  step_inv H; unfold_code; simpl in *;
    repeat match goal with
      | E : _ = _ |- _ => rewrite E in *
      end;
    simpl in *; destruct_match_goal; simpl in *;
    rewrite ?List.app_nil_r, <- ?List.app_assoc; simpl;
    try discriminate; try congruence.
  all: repeat match goal with
         | E : Some _ = Some _ |- _ => injection E as E; subst
         end; simpl.
  all: rewrite Hq, <- ?List.app_assoc; reflexivity.
Qed.

Lemma exec_fifo (sched : list event) (w w' : World) (taken : list Object) :
  exec sched w = Some w' ->
  enqueued w = taken ++ _queue (self w) ->
  enqueued w' = (taken ++ map snd (gets sched w)) ++ _queue (self w').
Proof.
  revert w taken. induction sched as [|e sched IH]; intros w taken H Hq; simpl in *.
  - injection H as <-. rewrite List.app_nil_r. exact Hq.
  - destruct (step e w) as [w1|] eqn:E; [|discriminate].
    pose proof (step_fifo e w w1 taken E Hq) as H1.
    specialize (IH w1 _ H H1). rewrite IH.
    destruct (got e w) as [g|]; simpl;
      rewrite <- ?List.app_assoc, ?List.app_nil_r; reflexivity.
Qed.

(** X1: in every state a run can reach, the objects put in the queue so far
    are, in this order, the objects [get] has returned to the workers so far
    followed by the objects still in the queue: the queue loses nothing,
    duplicates nothing, and hands objects out in the order they were put. *)
Theorem X1_queue_is_fifo
    (apikey output_dir : string) (num_workers : Z) (cursor0 : option string)
    (fs : gmap string string) (sched : list event) (w : World) :
  exec sched (start apikey output_dir num_workers cursor0 fs) = Some w ->
  enqueued w =
  map snd (gets sched (start apikey output_dir num_workers cursor0 fs)) ++
  _queue (self w).
Proof.
  intros H. apply (exec_fifo sched _ w [] H). reflexivity.
Qed.

Lemma X1_witness :
  exists w,
    exec interrupted_schedule (start "key" "out" 1 None ∅) = Some w /\
    map id (enqueued w) = ["a"] /\
    map id (map snd (gets interrupted_schedule (start "key" "out" 1 None ∅))) = ["a"] /\
    _queue (self w) = [].
Proof.
  eexists. split; [vm_compute; reflexivity|].
  match goal with
  | |- map id (enqueued ?w) = _ /\ _ =>
      assert (Hex : exec interrupted_schedule (start "key" "out" 1 None ∅) = Some w)
        by (vm_compute; reflexivity);
      pose proof (X1_queue_is_fifo "key" "out" 1 None ∅ interrupted_schedule w Hex) as H
  end.
  rewrite H. vm_compute. repeat split; reflexivity.
Defined.

(** ** What a [get] does *)

Lemma get_and_continue_head (i : nat) (o : Object) (q : list Object) (w : World) :
  _queue (self w) = o :: q ->
  (i < length (_worker_tasks w))%nat ->
  _queue (self (get_and_continue i w)) = q /\
  (forall j, j <> i ->
     _worker_tasks (get_and_continue i w) !! j = _worker_tasks w !! j) /\
  _worker_tasks (get_and_continue i w) !! i =
    Some match getitem (context_attributes o) "download_url" with
         | Some download_url => WGetAsync o download_url
         | None => WRaised
         end.
Proof.
  intros Hq Hi. unfold get_and_continue. rewrite Hq.
  destruct (getitem (context_attributes o) "download_url"); simpl;
    (split; [reflexivity|]; split;
     [intros j Hj; apply list_lookup_insert_ne; congruence
     | apply list_lookup_insert_eq; exact Hi]).
Qed.

Lemma loop_gets_Some (w : World) (o : Object) (i : nat) :
  loop_gets w = Some o ->
  exists q, _queue (self w) = o :: q /\ loop_head i w = get_and_continue i w.
Proof.
  unfold loop_gets, loop_head.
  destruct (negb (_aborted (self w)) || negb (empty (_queue (self w))));
    [|discriminate].
  destruct (_queue (self w)) as [|o' q]; [discriminate|].
  simpl. intros H. injection H as ->. eauto.
Qed.

Lemma got_step (e : event) (w w' : World) (i : nat) (o : Object) :
  step e w = Some w' -> got e w = Some (i, o) ->
  exists w1,
    w' = get_and_continue i w1 /\
    _queue (self w1) = _queue (self w) /\
    _worker_tasks w1 = _worker_tasks w /\
    (i < length (_worker_tasks w))%nat /\
    exists q, _queue (self w) = o :: q.
Proof.
  intros Hs Hg. destruct e as [| |r|j|j ok|j data wr]; simpl in Hg; try discriminate.
  - simpl in Hs. destruct (_worker_tasks w !! j) as [t|] eqn:E; [|discriminate].
    pose proof (lookup_lt_Some _ _ _ E) as Hlt.
    destruct t; try discriminate.
    + destruct (loop_gets w) as [o'|] eqn:El; [|discriminate].
      injection Hg as -> ->. injection Hs as <-.
      destruct (loop_gets_Some w o i El) as (q & Hq & Hl).
      exists w. rewrite Hl. eauto 10.
    + destruct (_queue (self w)) as [|o' q] eqn:Eq; [discriminate|].
      simpl in Hg, Hs. injection Hg as -> ->. injection Hs as <-.
      exists w. rewrite Eq. eauto 10.
  - destruct data as [data|]; [|discriminate]. destruct wr; try discriminate.
    simpl in Hs. destruct (_worker_tasks w !! j) as [t|] eqn:E; [|discriminate].
    pose proof (lookup_lt_Some _ _ _ E) as Hlt.
    destruct t; try discriminate.
    destruct (loop_gets w) as [o'|] eqn:El; [|discriminate].
    injection Hg as -> ->. injection Hs as <-.
    unfold write_and_continue.
    match goal with
    | |- context [loop_head i ?w1] =>
        destruct (loop_gets_Some w1 o i El) as (q & Hq & Hl); exists w1
    end.
    rewrite Hl. simpl in Hq. eauto 10.
Qed.

(** X2: when a [get] returns object [o] to worker [i], [o] was the oldest
    object of the queue and is removed from it, no other worker task
    changes, and worker [i] goes on to download [o] from its
    [download_url]; if [o] has no such context attribute, the [KeyError]
    ends worker [i] and [run] raises it, with [o] already out of the
    queue. *)
Theorem X2_get_hands_oldest_object_to_one_worker
    (e : event) (w w' : World) (i : nat) (o : Object) :
  step e w = Some w' ->
  got e w = Some (i, o) ->
  _queue (self w) = o :: _queue (self w') /\
  (forall j, j <> i -> _worker_tasks w' !! j = _worker_tasks w !! j) /\
  match getitem (context_attributes o) "download_url" with
  | Some download_url => _worker_tasks w' !! i = Some (WGetAsync o download_url)
  | None =>
      _worker_tasks w' !! i = Some WRaised /\
      forall sched, run_until_complete sched w' = Raised w'
  end.
Proof.
  intros Hs Hg.
  destruct (got_step e w w' i o Hs Hg) as (w1 & -> & Hq1 & Hw1 & Hi & q & Hq).
  rewrite <- Hq1 in Hq. rewrite <- Hw1 in Hi.
  destruct (get_and_continue_head i o q w1 Hq Hi) as (H1 & H2 & H3).
  rewrite <- Hq1, <- Hw1, H1. split; [exact Hq|]. split; [exact H2|].
  destruct (getitem (context_attributes o) "download_url") eqn:Eg; [exact H3|].
  split; [exact H3|]. intros sched. apply run_until_complete_raised.
  apply existsb_exists. exists WRaised. split; [|reflexivity].
  apply list_elem_of_In. apply list_elem_of_lookup. exists i. exact H3.
Qed.

Lemma X2_witness :
  exists w w',
    exec [ResumeProducer; FeedAnswers (Item (sample_object "a") "p1")]
      sample_start = Some w /\
    step (ResumeWorker 0) w = Some w' /\
    _queue (self w') = [] /\
    _worker_tasks w' !! 0%nat =
      Some (WGetAsync (sample_object "a") "https://example.test/a").
Proof.
  eexists. eexists. split; [vm_compute; reflexivity|].
  match goal with
  | |- step ?e ?w = Some ?w' /\ _ =>
      assert (Hs : step e w = Some w') by (vm_compute; reflexivity);
      assert (Hg : got e w = Some (0%nat, sample_object "a"))
        by (vm_compute; reflexivity);
      destruct (X2_get_hands_oldest_object_to_one_worker e w w' _ _ Hs Hg)
        as (H1 & _ & H3)
  end.
  split; [exact Hs|]. split; [vm_compute; reflexivity | exact H3].
Defined.

(** ** The abort flag *)

Lemma step_aborted (e : event) (w w' : World) :
  step e w = Some w' ->
  _aborted (self w') = (is_sigint e || _aborted (self w)).
Proof.
  intros H.
  step_inv H; unfold_code; simpl in *; destruct_match_goal; simpl in *;
    try reflexivity; congruence.
Qed.

Lemma exec_aborted (sched : list event) (w w' : World) :
  exec sched w = Some w' ->
  _aborted (self w') = (existsb is_sigint sched || _aborted (self w)).
Proof.
  revert w. induction sched as [|e sched IH]; intros w H; simpl in H.
  - injection H as <-. reflexivity.
  - destruct (step e w) as [w1|] eqn:E; [|discriminate].
    rewrite (IH _ H), (step_aborted _ _ _ E). simpl.
    destruct (is_sigint e), (existsb is_sigint sched); reflexivity.
Qed.

(** X3: after any schedule the abort flag is set exactly when it was set
    before or the signal handler has run: no step of the producer or of a
    worker writes the flag, and nothing ever clears it. *)
Theorem X3_abort_flag_is_set_by_sigint_only
    (sched : list event) (w w' : World) :
  exec sched w = Some w' ->
  (_aborted (self w') = true <->
   _aborted (self w) = true \/ In Sigint sched).
Proof.
  intros H. rewrite (exec_aborted _ _ _ H).
  rewrite orb_true_iff, existsb_exists. split.
  - intros [(e & Hin & He)|Ha]; [|left; exact Ha].
    right. destruct e; try discriminate. exact Hin.
  - intros [Ha|Hin]; [right; exact Ha|].
    left. exists Sigint. split; [exact Hin | reflexivity].
Qed.

Lemma X3_witness :
  exists w,
    exec interrupted_schedule (start "key" "out" 1 None ∅) = Some w /\
    _aborted (self w) = true.
Proof.
  eexists. split; [vm_compute; reflexivity|].
  match goal with
  | |- _aborted (self ?w) = true =>
      apply (X3_abort_flag_is_set_by_sigint_only interrupted_schedule
               (start "key" "out" 1 None ∅) w); [vm_compute; reflexivity|]
  end.
  right. unfold interrupted_schedule. simpl. tauto.
Defined.

(** ** [run] returns only after an abort *)

Lemma step_no_worker_done (e : event) (w w' : World) :
  step e w = Some w' ->
  _aborted (self w') = false ->
  Forall (fun t => t <> WDone) (_worker_tasks w) ->
  Forall (fun t => t <> WDone) (_worker_tasks w').
Proof.
  intros Hs Ha Hall. rewrite Forall_lookup in *. intros i t Ht Hd. subst t.
  destruct (_worker_tasks w !! i) as [t|] eqn:E.
  - assert (Hnd : _worker_tasks w !! i <> Some WDone).
    { rewrite E. intros H. injection H as ->. exact (Hall i WDone E eq_refl). }
    destruct (step_worker_done i e w w' Hs Hnd Ht) as (Hab & _).
    rewrite (step_aborted _ _ _ Hs), Hab in Ha.
    destruct (is_sigint e); discriminate.
  - apply lookup_ge_None in E. apply lookup_lt_Some in Ht.
    destruct (step_worker_count _ _ _ Hs) as [Hl _]. lia.
Qed.

Lemma exec_no_worker_done (sched : list event) (w w' : World) :
  exec sched w = Some w' ->
  _aborted (self w') = false ->
  Forall (fun t => t <> WDone) (_worker_tasks w) ->
  Forall (fun t => t <> WDone) (_worker_tasks w').
Proof.
  revert w. induction sched as [|e sched IH]; intros w H Ha Hall; simpl in H.
  - injection H as <-. exact Hall.
  - destruct (step e w) as [w1|] eqn:E; [|discriminate].
    apply (IH w1 H Ha). apply (step_no_worker_done e w w1 E); [|exact Hall].
    rewrite (exec_aborted _ _ _ H) in Ha.
    destruct (_aborted (self w1)); [|reflexivity].
    rewrite orb_true_r in Ha. discriminate.
Qed.

Lemma run_returned_flag_set
    (apikey output_dir : string) (num_workers : Z) (cursor0 : option string)
    (fs : gmap string string) (s1 : list event) (w : World) :
  1 <= num_workers ->
  exec s1 (create_tasks (__init__ apikey output_dir num_workers cursor0) fs) = Some w ->
  forallb is_done (_worker_tasks w) = true ->
  _aborted (self w) = true.
Proof.
  intros Hn Hex Hdone.
  destruct (_aborted (self w)) eqn:Ea; [reflexivity|]. exfalso.
  assert (Hall : Forall (fun t => t <> WDone) (_worker_tasks w)).
  { apply (exec_no_worker_done s1 _ w Hex Ea). simpl.
    apply Forall_forall. intros t Ht. apply elem_of_replicate in Ht.
    destruct Ht as [-> _]. discriminate. }
  destruct (exec_worker_count _ _ _ Hex) as [Hl _]. simpl in Hl.
  rewrite length_replicate in Hl.
  destruct (_worker_tasks w) as [|t ts]; [simpl in Hl; lia|].
  simpl in Hdone. apply andb_prop in Hdone. destruct Hdone as [Hd _].
  inversion Hall as [|? ? Ht _]; subst.
  destruct t; try discriminate. apply Ht. reflexivity.
Qed.

Lemma flag_set_by_sigint (sched : list event) (w w' : World) :
  exec sched w = Some w' ->
  _aborted (self w) = false -> _aborted (self w') = true ->
  In Sigint sched.
Proof.
  intros Hex H0 H1. rewrite (exec_aborted _ _ _ Hex), H0 in H1.
  rewrite orb_false_r in H1. apply existsb_exists in H1.
  destruct H1 as (e & Hin & He). destruct e; try discriminate. exact Hin.
Qed.

(** X4: with at least one worker, [run] on a reader that was just
    constructed returns only if [abort] has been called: the abort flag is
    set in the state it returns in, and the signal handler ran before.  A
    feed that ends, or a producer that has failed, does not make [run]
    return. *)
Theorem X4_run_returns_only_after_abort
    (apikey output_dir : string) (num_workers : Z) (cursor0 : option string)
    (fs : gmap string string) (sched : list event) (w : World) :
  1 <= num_workers ->
  run sched (__init__ apikey output_dir num_workers cursor0) fs = Returned w ->
  _aborted (self w) = true /\ In Sigint sched.
Proof.
  intros Hn Hr. unfold run in Hr.
  pose proof (run_until_complete_returned _ _ _ Hr) as Hdone.
  destruct (run_until_complete_exec sched _ w (or_introl Hr))
    as (s1 & s2 & -> & Hex).
  pose proof (run_returned_flag_set _ _ _ _ _ _ _ Hn Hex Hdone) as Ha.
  split; [exact Ha|].
  apply in_or_app. left.
  exact (flag_set_by_sigint s1 _ w Hex eq_refl Ha).
Qed.

Lemma X4_witness :
  exists w,
    run interrupted_schedule (__init__ "key" "out" 1 None) ∅ = Returned w /\
    _aborted (self w) = true.
Proof.
  eexists. split; [vm_compute; reflexivity|].
  match goal with
  | |- _aborted (self ?w) = true =>
      apply (X4_run_returns_only_after_abort "key" "out" 1 None ∅
               interrupted_schedule w); [lia | vm_compute; reflexivity]
  end.
Defined.

(** ** Steps that are not the producer's *)

Lemma step_producer_frame (e : event) (w w' : World) :
  step e w = Some w' ->
  producer_event e = false ->
  producer_task w' = producer_task w /\ enqueued w' = enqueued w /\
  yielded w' = yielded w /\ feed_cursor w' = feed_cursor w.
Proof.
  intros H He. destruct e as [| |r|j|j ok|j data wr]; try discriminate He;
    simpl in H.
  - injection H as <-. auto.
  - destruct (_worker_tasks w !! j) as [t|]; [|discriminate].
    destruct t; try discriminate.
    + injection H as <-. unfold_code. destruct_match_goal; auto.
    + destruct (empty _); [discriminate|]. injection H as <-.
      unfold_code. destruct_match_goal; auto.
  - destruct (_worker_tasks w !! j) as [t|]; [|discriminate].
    destruct t; try discriminate. injection H as <-. auto.
  - destruct (_worker_tasks w !! j) as [t|]; [|discriminate].
    destruct t; try discriminate.
    destruct data; [destruct (write_possible _ _ _); [|discriminate]|];
        injection H as <-; [|auto].
    unfold_code. destruct_match_goal; auto.
Qed.

(** ** After the abort flag is set *)

Lemma step_after_abort (e : event) (w w' : World) :
  step e w = Some w' ->
  _aborted (self w) = true ->
  (length (enqueued w') + puts_left w' <= length (enqueued w) + puts_left w)%nat /\
  (length (yielded w') + pulls_left w' <= length (yielded w) + pulls_left w)%nat.
Proof.
  intros H Ha. unfold puts_left, pulls_left.
  assert (Hput : forall o w0, _aborted (self w0) = true ->
            (length (enqueued (put_and_continue o w0)) <= S (length (enqueued w0)))%nat /\
            yielded (put_and_continue o w0) = yielded w0 /\
            (producer_task (put_and_continue o w0) = PDone \/
             (producer_task (put_and_continue o w0) = PPut o /\
              enqueued (put_and_continue o w0) = enqueued w0))).
  { intros o w0 Ha0. unfold put_and_continue.
    destruct (full _ _); simpl; [auto|].
    rewrite Ha0. simpl. rewrite length_app. simpl. split; [lia|]. auto. }
  destruct e as [| |r|j|j ok|j data wr]; simpl in H.
  - injection H as <-. simpl. lia.
  - destruct (producer_task w) eqn:Ep; try discriminate.
    + injection H as <-. simpl. lia.
    + destruct (full _ _); [discriminate|]. injection H as <-.
      destruct (Hput file_obj w Ha) as (H1 & H2 & [H3|[H3 H4]]);
        rewrite H3, H2, ?H4; lia.
  - destruct (producer_task w) eqn:Ep; try discriminate.
    destruct r; injection H as <-.
    + destruct (Hput file_obj (feed_yield file_obj position w) Ha)
        as (H1 & H2 & [H3|[H3 H4]]);
        rewrite H3, H2, ?H4 in *; simpl in *; rewrite ?length_app in *; simpl in *; lia.
    + simpl. lia.
    + simpl. lia.
  - assert (Hsame : producer_task w' = producer_task w /\ enqueued w' = enqueued w /\
                    yielded w' = yielded w).
    { destruct (_worker_tasks w !! j) as [t|]; [|discriminate].
      destruct t; try discriminate.
      - injection H as <-. unfold_code. destruct_match_goal; auto.
      - destruct (empty _); [discriminate|]. injection H as <-.
        unfold_code. destruct_match_goal; auto. }
    destruct Hsame as (-> & -> & ->). lia.
  - destruct (_worker_tasks w !! j) as [t|]; [|discriminate].
    destruct t; try discriminate. injection H as <-. simpl. lia.
  - assert (Hsame : producer_task w' = producer_task w /\ enqueued w' = enqueued w /\
                    yielded w' = yielded w).
    { destruct (_worker_tasks w !! j) as [t|]; [|discriminate].
      destruct t; try discriminate.
      destruct data; [destruct (write_possible _ _ _); [|discriminate]|];
        injection H as <-; [|auto].
      unfold_code. destruct_match_goal; auto. }
    destruct Hsame as (-> & -> & ->). lia.
Qed.

Lemma exec_after_abort (sched : list event) (w w' : World) :
  exec sched w = Some w' ->
  _aborted (self w) = true ->
  (length (enqueued w') + puts_left w' <= length (enqueued w) + puts_left w)%nat /\
  (length (yielded w') + pulls_left w' <= length (yielded w) + pulls_left w)%nat.
Proof.
  revert w. induction sched as [|e sched IH]; intros w H Ha; simpl in H.
  - injection H as <-. lia.
  - destruct (step e w) as [w1|] eqn:E; [|discriminate].
    destruct (step_after_abort _ _ _ E Ha) as [H1 H2].
    assert (Ha1 : _aborted (self w1) = true).
    { rewrite (step_aborted _ _ _ E), Ha. apply orb_true_r. }
    destruct (IH w1 H Ha1) as [H3 H4]. lia.
Qed.

(** X5: once the abort flag is set, whatever the schedule, the producer
    pulls at most one more object from the feed and puts at most one more
    object in the queue (none if it has already returned or raised). *)
Theorem X5_at_most_one_more_object_after_abort
    (sched : list event) (w w' : World) :
  exec sched w = Some w' ->
  _aborted (self w) = true ->
  (length (yielded w') <= length (yielded w) + pulls_left w)%nat /\
  (length (enqueued w') <= length (enqueued w) + puts_left w)%nat /\
  (pulls_left w <= 1)%nat /\ (puts_left w <= 1)%nat.
Proof.
  intros H Ha. destruct (exec_after_abort _ _ _ H Ha) as [H1 H2].
  split; [lia|]. split; [lia|].
  unfold pulls_left, puts_left. destruct (producer_task w); lia.
Qed.

Lemma X5_witness :
  exists w w',
    exec [Sigint] (start "key" "out" 1 None ∅) = Some w /\
    exec [ResumeProducer; FeedAnswers (Item (sample_object "a") "p1")] w = Some w' /\
    (length (enqueued w') <= 1)%nat.
Proof.
  eexists. eexists. split; [vm_compute; reflexivity|].
  match goal with
  | |- exec ?s ?w = Some ?w' /\ _ =>
      assert (Hex : exec s w = Some w') by (vm_compute; reflexivity);
      destruct (X5_at_most_one_more_object_after_abort s w w' Hex eq_refl)
        as (_ & H2 & _)
  end.
  split; [exact Hex | exact H2].
Defined.

(** ** Feed order *)

Lemma step_feed_order (e : event) (w w' : World) :
  step e w = Some w' ->
  map fst (yielded w) = enqueued w ++ pending w ->
  map fst (yielded w') = enqueued w' ++ pending w'.
Proof.
  intros H Hq.
  destruct (producer_event e) eqn:He.
  - assert (Hput : forall o w0,
              map fst (yielded w0) = enqueued w0 ++ [o] ->
              map fst (yielded (put_and_continue o w0)) =
              enqueued (put_and_continue o w0) ++ pending (put_and_continue o w0)).
    { intros o w0 H0. unfold put_and_continue, pending.
      destruct (full _ _); simpl; [exact H0|].
      destruct (_aborted (self w0)); simpl; rewrite List.app_nil_r; exact H0. }
    unfold pending in Hq.
    destruct e as [| |r|j|j ok|j data wr]; try discriminate He; simpl in H.
    + destruct (producer_task w) eqn:Ep; try discriminate.
      * injection H as <-. exact Hq.
      * destruct (full _ _); [discriminate|]. injection H as <-.
        apply Hput. exact Hq.
    + destruct (producer_task w) eqn:Ep; try discriminate.
      destruct r; injection H as <-.
      * apply Hput. simpl. rewrite map_app, Hq, List.app_nil_r. reflexivity.
      * exact Hq.
      * exact Hq.
  - destruct (step_producer_frame e w w' H He) as (H1 & H2 & H3 & _).
    unfold pending in *. rewrite H1, H2, H3. exact Hq.
Qed.

Lemma exec_feed_order
    (apikey output_dir : string) (num_workers : Z) (cursor0 : option string)
    (fs : gmap string string) (sched : list event) (w : World) :
  exec sched (start apikey output_dir num_workers cursor0 fs) = Some w ->
  map fst (yielded w) = enqueued w ++ pending w.
Proof.
  intros H.
  eapply (exec_invariant (fun w => map fst (yielded w) = enqueued w ++ pending w));
    [| |exact H].
  - intros e w1 w2 H1 Hs. eapply step_feed_order; eauto.
  - reflexivity.
Qed.

(** X6: in every state a run can reach, the objects put in the queue so far
    are the objects the feed has yielded so far, in the feed's order and
    with none skipped, except for the one object the producer holds while
    it is suspended in [put]. *)
Theorem X6_objects_are_enqueued_in_feed_order
    (apikey output_dir : string) (num_workers : Z) (cursor0 : option string)
    (fs : gmap string string) (sched : list event) (w : World) :
  exec sched (start apikey output_dir num_workers cursor0 fs) = Some w ->
  map fst (yielded w) = enqueued w ++ pending w /\ (length (pending w) <= 1)%nat.
Proof.
  intros H. split; [eapply exec_feed_order; exact H|].
  unfold pending. destruct (producer_task w); simpl; lia.
Qed.

Lemma X6_witness :
  exists w,
    exec interrupted_schedule (start "key" "out" 1 None ∅) = Some w /\
    map fst (yielded w) = enqueued w ++ pending w.
Proof.
  eexists. split; [vm_compute; reflexivity|].
  match goal with
  | |- map fst (yielded ?w) = _ =>
      apply (X6_objects_are_enqueued_in_feed_order "key" "out" 1 None ∅
               interrupted_schedule w)
  end.
  vm_compute. reflexivity.
Defined.

(** X7: with [num_workers >= 1], the producer is never more than
    [num_workers + 1] objects ahead of the workers: the number of objects
    pulled from the feed is at most the number of objects [get] has
    returned, plus [num_workers] (a full queue), plus one (the object held
    in [put]). *)
Theorem X7_producer_is_at_most_capacity_plus_one_ahead
    (apikey output_dir : string) (num_workers : Z) (cursor0 : option string)
    (fs : gmap string string) (sched : list event) (w : World) :
  1 <= num_workers ->
  exec sched (start apikey output_dir num_workers cursor0 fs) = Some w ->
  Z.of_nat (length (yielded w)) <=
  Z.of_nat (length (gets sched (start apikey output_dir num_workers cursor0 fs)))
  + num_workers + 1.
Proof.
  intros Hn H.
  pose proof (exec_feed_order _ _ _ _ _ _ _ H) as Hy.
  pose proof (exec_fifo sched _ w [] H eq_refl) as Hq. simpl in Hq.
  assert (Hb : queue_bounded num_workers w).
  { eapply (exec_invariant (queue_bounded num_workers)); [| |exact H].
    - intros e w1 w2 Hw1 Hs. eapply step_queue_bounded; eauto.
    - split; simpl; [reflexivity | lia]. }
  destruct Hb as [_ Hlen].
  apply (f_equal length) in Hy. apply (f_equal length) in Hq.
  rewrite length_map, length_app in Hy. rewrite length_app, length_map in Hq.
  assert (Hp : (length (pending w) <= 1)%nat).
  { unfold pending. destruct (producer_task w); simpl; lia. }
  lia.
Qed.

Lemma X7_witness :
  exists w,
    exec interrupted_schedule (start "key" "out" 1 None ∅) = Some w /\
    Z.of_nat (length (yielded w)) <=
    Z.of_nat (length (gets interrupted_schedule (start "key" "out" 1 None ∅))) + 1 + 1.
Proof.
  eexists. split; [vm_compute; reflexivity|].
  match goal with
  | |- Z.of_nat (length (yielded ?w)) <= _ =>
      apply (X7_producer_is_at_most_capacity_plus_one_ahead "key" "out" 1 None ∅
               interrupted_schedule w); [lia | vm_compute; reflexivity]
  end.
Defined.

(** ** The files and the lines a run leaves *)

(** What one step does to the file system and to the standard output. *)
Lemma step_output_effect (e : event) (w w' : World) :
  step e w = Some w' ->
  _output_dir (self w') = _output_dir (self w) /\
  ((files w' = files w /\ stdout w' = stdout w) \/
   exists i data wr o,
     e = ReadReturns i (Some data) wr /\
     _worker_tasks w !! i = Some (WRead o) /\
     match wr with
     | WriteOk =>
         files w' =
           <[content_path (_output_dir (self w)) (id o) := data]>
             (<[metadata_path (_output_dir (self w)) (id o) :=
                  Json.dumps (to_dict o)]> (files w)) /\
         stdout w' = stdout w ++ [id o]
     | ContentFails written =>
         files w' =
           partial_insert (content_path (_output_dir (self w)) (id o)) written
             (<[metadata_path (_output_dir (self w)) (id o) :=
                  Json.dumps (to_dict o)]> (files w)) /\
         stdout w' = stdout w
     | MetadataFails written =>
         files w' =
           partial_insert (metadata_path (_output_dir (self w)) (id o)) written
             (files w) /\
         stdout w' = stdout w
     end).
Proof.
  intros H.
  assert (Hloop : forall i w0,
            _output_dir (self (loop_head i w0)) = _output_dir (self w0) /\
            files (loop_head i w0) = files w0 /\
            stdout (loop_head i w0) = stdout w0).
  { intros i w0. unfold_code. destruct_match_goal; auto. }
  assert (Hget : forall i w0,
            _output_dir (self (get_and_continue i w0)) = _output_dir (self w0) /\
            files (get_and_continue i w0) = files w0 /\
            stdout (get_and_continue i w0) = stdout w0).
  { intros i w0. unfold_code. destruct_match_goal; auto. }
  assert (Hput : forall o w0,
            _output_dir (self (put_and_continue o w0)) = _output_dir (self w0) /\
            files (put_and_continue o w0) = files w0 /\
            stdout (put_and_continue o w0) = stdout w0).
  { intros o w0. unfold_code. destruct_match_goal; auto. }
  destruct e as [| |r|j|j ok|j data wr]; simpl in H.
  - injection H as <-. auto.
  - destruct (producer_task w); try discriminate.
    + injection H as <-. auto.
    + destruct (full _ _); [discriminate|]. injection H as <-.
      destruct (Hput file_obj w) as (H1 & H2 & H3). auto.
  - destruct (producer_task w); try discriminate.
    destruct r; injection H as <-; auto.
    destruct (Hput file_obj (feed_yield file_obj position w)) as (H1 & H2 & H3).
    auto.
  - destruct (_worker_tasks w !! j) as [t|]; [|discriminate].
    destruct t; try discriminate.
    + injection H as <-. destruct (Hloop j w) as (H1 & H2 & H3). auto.
    + destruct (empty _); [discriminate|]. injection H as <-.
      destruct (Hget j w) as (H1 & H2 & H3). auto.
  - destruct (_worker_tasks w !! j) as [t|]; [|discriminate].
    destruct t; try discriminate. injection H as <-. auto.
  - destruct (_worker_tasks w !! j) as [t|] eqn:E; [|discriminate].
    destruct t; try discriminate.
    destruct data as [data|];
      [destruct (write_possible _ _ _); [|discriminate]|];
      injection H as <-; [|auto].
    unfold write_and_continue. destruct wr as [|written|written].
    + match goal with
      | |- context [loop_head j ?w1] => destruct (Hloop j w1) as (H1 & H2 & H3)
      end.
      rewrite H1, H2, H3. split; [reflexivity|]. right.
      exists j, data, WriteOk, file_obj. auto.
    + split; [simpl; rewrite write_partial_self; reflexivity|]. right.
      exists j, data, (MetadataFails written), file_obj.
      destruct written; auto.
    + split; [simpl; rewrite write_partial_self; reflexivity|]. right.
      exists j, data, (ContentFails written), file_obj.
      destruct written; auto.
Qed.

Lemma partial_insert_is_Some (path path' : string) (written : option string)
    (fs : gmap string string) :
  is_Some (fs !! path) -> is_Some (partial_insert path' written fs !! path).
Proof.
  destruct written; simpl; [|auto].
  rewrite lookup_insert_is_Some'. auto.
Qed.

Lemma partial_insert_ne (path path' : string) (written : option string)
    (fs : gmap string string) :
  path' <> path -> partial_insert path' written fs !! path = fs !! path.
Proof.
  intros Hne. destruct written; simpl; [|reflexivity].
  apply lookup_insert_ne. exact Hne.
Qed.

Lemma step_printed_have_files (output_dir : string) (e : event) (w w' : World) :
  printed_have_files output_dir w -> step e w = Some w' ->
  printed_have_files output_dir w'.
Proof.
  intros [Hd Hp] Hs. unfold printed_have_files.
  destruct (step_output_effect e w w' Hs) as (Hdir & Heff).
  split; [congruence|].
  destruct Heff as [[Hf Ho]|(i & data & wr & o & _ & _ & Heff)].
  - rewrite Hf, Ho. exact Hp.
  - rewrite Hd in Heff. destruct wr; destruct Heff as [Hf Ho]; rewrite Hf, Ho.
    + intros file_id Hin. apply in_app_or in Hin.
      rewrite !lookup_insert_is_Some'.
      destruct Hin as [Hin|[<-|[]]].
      * destruct (Hp _ Hin) as [H1 H2]. auto.
      * split; [left; reflexivity | right; left; reflexivity].
    + intros file_id Hin. destruct (Hp _ Hin) as [H1 H2].
      split; apply partial_insert_is_Some; assumption.
    + intros file_id Hin. destruct (Hp _ Hin) as [H1 H2].
      split; apply partial_insert_is_Some; rewrite lookup_insert_is_Some'; auto.
Qed.

Lemma step_files_kept (e : event) (w w' : World) (path : string) :
  step e w = Some w' -> is_Some (files w !! path) -> is_Some (files w' !! path).
Proof.
  intros Hs Hp. destruct (step_output_effect e w w' Hs) as (_ & Heff).
  destruct Heff as [[Hf _]|(i & data & wr & o & _ & _ & Heff)].
  - rewrite Hf. exact Hp.
  - destruct wr; destruct Heff as [Hf _]; rewrite Hf;
      try apply partial_insert_is_Some;
      rewrite ?lookup_insert_is_Some'; auto.
Qed.

(** X8: in every state a run can reach, every identifier that has been
    printed has both its files, the content file [<output_dir>/<id>] and
    the metadata file [<output_dir>/<id>.json]; and every file that existed
    when the run started still exists: a run removes no file. *)
Theorem X8_printed_identifiers_have_both_files
    (apikey output_dir : string) (num_workers : Z) (cursor0 : option string)
    (fs : gmap string string) (sched : list event) (w : World) :
  exec sched (start apikey output_dir num_workers cursor0 fs) = Some w ->
  (forall file_id, In file_id (stdout w) ->
     is_Some (files w !! content_path output_dir file_id) /\
     is_Some (files w !! metadata_path output_dir file_id)) /\
  (forall path, is_Some (fs !! path) -> is_Some (files w !! path)).
Proof.
  intros H. split.
  - assert (Hinv : printed_have_files output_dir w).
    { eapply (exec_invariant (printed_have_files output_dir)); [| |exact H].
      - intros e w1 w2 H1 Hs. eapply step_printed_have_files; eauto.
      - split; [reflexivity|]. intros file_id []. }
    exact (proj2 Hinv).
  - intros path Hp.
    eapply (exec_invariant (fun w => is_Some (files w !! path))); [| |exact H].
    + intros e w1 w2 H1 Hs. eapply step_files_kept; eauto.
    + exact Hp.
Qed.

Lemma X8_witness :
  exists w,
    exec interrupted_schedule (start "key" "out" 1 None ∅) = Some w /\
    In "a" (stdout w) /\
    is_Some (files w !! content_path "out" "a") /\
    is_Some (files w !! metadata_path "out" "a").
Proof.
  eexists. split; [vm_compute; reflexivity|].
  match goal with
  | |- In _ (stdout ?w) /\ _ =>
      assert (Hex : exec interrupted_schedule (start "key" "out" 1 None ∅) = Some w)
        by (vm_compute; reflexivity);
      assert (Hin : In "a" (stdout w)) by (vm_compute; left; reflexivity);
      pose proof (proj1 (X8_printed_identifiers_have_both_files
                           "key" "out" 1 None ∅ interrupted_schedule w Hex) "a" Hin)
        as H
  end.
  split; [exact Hin | exact H].
Defined.

(** X9: a step changes the file system at no path other than the two
    output paths of the object whose content the stepping worker has just
    read: the producer, the signal handler and the other worker steps write
    no file. *)
Theorem X9_only_the_two_paths_of_the_object_are_written
    (e : event) (w w' : World) (path : string) :
  step e w = Some w' ->
  files w' !! path <> files w !! path ->
  exists i data wr o,
    e = ReadReturns i (Some data) wr /\
    _worker_tasks w !! i = Some (WRead o) /\
    (path = content_path (_output_dir (self w)) (id o) \/
     path = metadata_path (_output_dir (self w)) (id o)).
Proof.
  intros Hs Hne. destruct (step_output_effect e w w' Hs) as (_ & Heff).
  destruct Heff as [[Hf _]|(i & data & wr & o & He & Hi & Heff)].
  - rewrite Hf in Hne. contradiction.
  - exists i, data, wr, o. split; [exact He|]. split; [exact Hi|].
    destruct wr; destruct Heff as [Hf _]; rewrite Hf in Hne.
    + destruct (decide (content_path (_output_dir (self w)) (id o) = path))
        as [Hc|Hc]; [left; congruence|].
      rewrite lookup_insert_ne in Hne by exact Hc.
      destruct (decide (metadata_path (_output_dir (self w)) (id o) = path))
        as [Hm|Hm]; [right; congruence|].
      rewrite lookup_insert_ne in Hne by exact Hm. contradiction.
    + destruct (decide (metadata_path (_output_dir (self w)) (id o) = path))
        as [Hm|Hm]; [right; congruence|].
      rewrite partial_insert_ne in Hne by exact Hm. contradiction.
    + destruct (decide (content_path (_output_dir (self w)) (id o) = path))
        as [Hc|Hc]; [left; congruence|].
      rewrite partial_insert_ne in Hne by exact Hc.
      destruct (decide (metadata_path (_output_dir (self w)) (id o) = path))
        as [Hm|Hm]; [right; congruence|].
      rewrite lookup_insert_ne in Hne by exact Hm. contradiction.
Qed.

Lemma X9_witness :
  exists w w',
    exec [ResumeProducer; FeedAnswers (Item (sample_object "a") "p1");
          ResumeWorker 0; GetAsyncReturns 0 true] sample_start = Some w /\
    step (ReadReturns 0 (Some "DATA") WriteOk) w = Some w' /\
    files w' !! "out/a" <> files w !! "out/a" /\
    ("out/a" = content_path (_output_dir (self w)) "a" \/
     "out/a" = metadata_path (_output_dir (self w)) "a").
Proof.
  eexists. eexists. split; [vm_compute; reflexivity|].
  match goal with
  | |- step ?e ?w = Some ?w' /\ _ =>
      assert (Hs : step e w = Some w') by (vm_compute; reflexivity);
      assert (Hne : files w' !! "out/a" <> files w !! "out/a")
        by (vm_compute; discriminate);
      destruct (X9_only_the_two_paths_of_the_object_are_written e w w' "out/a" Hs Hne)
        as (i & data & wr & o & He & Hi & Hp)
  end.
  split; [exact Hs|]. split; [exact Hne|].
  injection He as <- <- <-.
  vm_compute in Hi. injection Hi as <-. exact Hp.
Defined.

(** X10: the metadata file of an object is written before its content
    file, and a block that raises ends the worker's task.  So a step that
    changes the content file of the object leaves its metadata file
    complete.  When a write fails nothing is printed and the worker's task
    ends; if it is the block of the metadata file that raised, the content
    file is left as it was, and the file system too unless [open] had
    succeeded: the metadata file then holds a prefix of the text; if it is
    the block of the content file, the metadata file is complete and the
    content file is as it was, or holds a prefix of the data. *)
Theorem X10_content_is_written_after_complete_metadata
    (i : nat) (data : string) (wr : write_result) (o : Object) (w w' : World) :
  _worker_tasks w !! i = Some (WRead o) ->
  step (ReadReturns i (Some data) wr) w = Some w' ->
  (files w' !! content_path (_output_dir (self w)) (id o) <>
     files w !! content_path (_output_dir (self w)) (id o) ->
   files w' !! metadata_path (_output_dir (self w)) (id o) =
     Some (Json.dumps (to_dict o))) /\
  (wr <> WriteOk ->
   stdout w' = stdout w /\
   _worker_tasks w' !! i = Some WRaised /\
   match wr with
   | WriteOk => True
   | MetadataFails written =>
       files w' !! content_path (_output_dir (self w)) (id o) =
         files w !! content_path (_output_dir (self w)) (id o) /\
       match written with
       | None => files w' = files w
       | Some text =>
           files w' =
             <[metadata_path (_output_dir (self w)) (id o) := text]> (files w) /\
           String.prefix text (Json.dumps (to_dict o)) = true
       end
   | ContentFails written =>
       files w' !! metadata_path (_output_dir (self w)) (id o) =
         Some (Json.dumps (to_dict o)) /\
       match written with
       | None =>
           files w' !! content_path (_output_dir (self w)) (id o) =
             files w !! content_path (_output_dir (self w)) (id o)
       | Some text =>
           files w' !! content_path (_output_dir (self w)) (id o) = Some text /\
           String.prefix text data = true
       end
   end).
Proof.
  intros Hi Hs. simpl in Hs. rewrite Hi in Hs.
  destruct (write_possible o data wr) eqn:Hposs; [|discriminate].
  injection Hs as <-.
  pose proof (lookup_lt_Some _ _ _ Hi) as Hlt.
  assert (Hne : metadata_path (_output_dir (self w)) (id o) <>
                content_path (_output_dir (self w)) (id o)).
  { unfold metadata_path, content_path. intros H. symmetry in H. revert H.
    apply string_app_neq_self. discriminate. }
  unfold write_and_continue.
  fold (content_path (_output_dir (self w)) (id o)).
  fold (metadata_path (_output_dir (self w)) (id o)).
  destruct wr as [|[text|]|[text|]]; simpl in Hposs |- *.
  - rewrite loop_head_files. simpl. split; [|intros H; contradiction].
    intros _. rewrite lookup_insert_ne by auto. apply lookup_insert_eq.
  - split.
    + intros H. rewrite lookup_insert_ne in H by exact Hne. contradiction.
    + intros _. repeat split; try assumption.
      * apply list_lookup_insert_eq. exact Hlt.
      * apply lookup_insert_ne. exact Hne.
  - split; [intros H; contradiction|].
    intros _. repeat split. apply list_lookup_insert_eq. exact Hlt.
  - split.
    + intros _. rewrite lookup_insert_ne by auto. apply lookup_insert_eq.
    + intros _. repeat split; try assumption.
      * apply list_lookup_insert_eq. exact Hlt.
      * rewrite lookup_insert_ne by auto. apply lookup_insert_eq.
      * apply lookup_insert_eq.
  - split.
    + intros H. rewrite lookup_insert_ne in H by exact Hne. contradiction.
    + intros _. repeat split.
      * apply list_lookup_insert_eq. exact Hlt.
      * apply lookup_insert_eq.
      * apply lookup_insert_ne. exact Hne.
Qed.

Lemma X10_witness :
  exists w w',
    exec [ResumeProducer; FeedAnswers (Item (sample_object "a") "p1");
          ResumeWorker 0; GetAsyncReturns 0 true] sample_start = Some w /\
    step (ReadReturns 0 (Some "DATA") (ContentFails (Some "DA"))) w = Some w' /\
    files w' !! "out/a" = Some "DA" /\
    files w' !! "out/a.json" = Some (Json.dumps (to_dict (sample_object "a"))).
Proof.
  eexists. eexists. split; [vm_compute; reflexivity|].
  match goal with
  | |- step ?e ?w = Some ?w' /\ _ =>
      assert (Hs : step e w = Some w') by (vm_compute; reflexivity);
      assert (Hi : _worker_tasks w !! 0%nat = Some (WRead (sample_object "a")))
        by (vm_compute; reflexivity);
      destruct (proj2 (X10_content_is_written_after_complete_metadata
                         0 "DATA" (ContentFails (Some "DA")) (sample_object "a")
                         w w' Hi Hs) ltac:(discriminate))
        as (_ & _ & H3 & H4 & _)
  end.
  split; [exact Hs|]. split; [exact H4 | exact H3].
Defined.

(** ** No workers *)

Lemma run_until_complete_no_workers (sched : list event) (w w' : World) :
  _worker_tasks w = [] ->
  exec sched w = Some w' ->
  run_until_complete sched w =
  if started (producer_task w') then Returned w' else Blocked w'.
Proof.
  revert w. induction sched as [|e sched IH]; intros w Hw Hex; simpl in Hex |- *;
    rewrite Hw; simpl.
  - injection Hex as <-. reflexivity.
  - destruct (step e w) as [w1|] eqn:E; [|discriminate].
    apply IH; [|exact Hex].
    destruct (step_worker_count _ _ _ E) as [Hl _]. rewrite Hw in Hl.
    destruct (_worker_tasks w1); [reflexivity | discriminate].
Qed.

(** Without workers nothing is taken out of the queue, which has no bound:
    it holds every object the feed has yielded. *)
Lemma step_no_workers (fs : gmap string string) (e : event) (w w' : World) :
  (_worker_tasks w = [] /\ _num_workers (self w) <= 0 /\
   files w = fs /\ stdout w = [] /\
   _queue (self w) = map fst (yielded w) /\
   forall o, producer_task w <> PPut o) ->
  step e w = Some w' ->
  _worker_tasks w' = [] /\ _num_workers (self w') <= 0 /\
  files w' = fs /\ stdout w' = [] /\
  _queue (self w') = map fst (yielded w') /\
  forall o, producer_task w' <> PPut o.
Proof.
  intros (Hw & Hn & Hf & Ho & Hq & Hp) Hs.
  assert (Hfull : forall q, full (_num_workers (self w)) q = false).
  { intros q. unfold full. destruct (Z.leb_spec (_num_workers (self w)) 0);
      [reflexivity | lia]. }
  destruct e as [| |r|j|j ok|j data wr]; simpl in Hs.
  - injection Hs as <-. simpl. auto 10.
  - destruct (producer_task w) eqn:Ep; try discriminate.
    + injection Hs as <-. simpl. repeat split; auto; discriminate.
    + exfalso. eapply Hp. reflexivity.
  - destruct (producer_task w) eqn:Ep; try discriminate.
    destruct r; injection Hs as <-.
    + unfold put_and_continue, feed_yield. simpl. rewrite Hfull. simpl.
      destruct (_aborted (self w)); simpl; rewrite map_app, Hq; simpl;
        repeat split; auto; try discriminate.
    + simpl. repeat split; auto; discriminate.
    + simpl. repeat split; auto; discriminate.
  - rewrite Hw in Hs. discriminate.
  - rewrite Hw in Hs. discriminate.
  - rewrite Hw in Hs. discriminate.
Qed.

(** X11: with [num_workers <= 0], [run] creates no worker task and the
    queue has no bound.  Whatever the schedule, no file is written, nothing
    is printed, and every object the feed has yielded is in the queue: the
    producer is never suspended in [put].  [run] returns when the loop
    stops, with or without [abort], and not before the producer task has
    taken its first step. *)
Theorem X11_run_without_workers_processes_nothing
    (apikey output_dir : string) (num_workers : Z) (cursor0 : option string)
    (fs : gmap string string) (sched : list event) (w : World) :
  num_workers <= 0 ->
  exec sched (start apikey output_dir num_workers cursor0 fs) = Some w ->
  _worker_tasks w = [] /\
  files w = fs /\ stdout w = [] /\
  map fst (yielded w) = _queue (self w) /\
  enqueued w = _queue (self w) /\
  run sched (__init__ apikey output_dir num_workers cursor0) fs =
    (if started (producer_task w) then Returned w else Blocked w) /\
  (sched = [] -> started (producer_task w) = false).
Proof.
  intros Hn Hex.
  assert (H0 : _worker_tasks (start apikey output_dir num_workers cursor0 fs) = []).
  { simpl. replace (Z.to_nat num_workers) with O by lia. reflexivity. }
  assert (Hinv : _worker_tasks w = [] /\ _num_workers (self w) <= 0 /\
                 files w = fs /\ stdout w = [] /\
                 _queue (self w) = map fst (yielded w) /\
                 forall o, producer_task w <> PPut o).
  { refine (exec_invariant _ (step_no_workers fs) sched _ w _ Hex).
    split; [exact H0|]. simpl. repeat split; auto; discriminate. }
  destruct Hinv as (Hw & _ & Hf & Ho & Hq & Hp).
  pose proof (exec_feed_order _ _ _ _ _ _ _ Hex) as Hy.
  assert (Hpend : pending w = []).
  { unfold pending. destruct (producer_task w) eqn:Ep; try reflexivity.
    exfalso. eapply Hp. reflexivity. }
  rewrite Hpend, List.app_nil_r in Hy.
  repeat split; try assumption.
  - congruence.
  - congruence.
  - unfold run. apply run_until_complete_no_workers; assumption.
  - intros ->. injection Hex as <-. reflexivity.
Qed.

Lemma X11_witness :
  exists w,
    run [ResumeProducer; FeedAnswers (Item (sample_object "a") "p1");
         FeedAnswers (Item (sample_object "b") "p2")]
      (__init__ "key" "out" 0 None) ∅ = Returned w /\
    map id (_queue (self w)) = ["a"; "b"] /\
    stdout w = [].
Proof.
  eexists.
  match goal with
  | |- run ?s _ _ = Returned ?w /\ _ =>
      assert (Hex : exec s (start "key" "out" 0 None ∅) = Some w)
        by (vm_compute; reflexivity);
      destruct (X11_run_without_workers_processes_nothing
                  "key" "out" 0 None ∅ s w ltac:(lia) Hex)
        as (_ & _ & Ho & _ & _ & Hr & _)
  end.
  split; [exact Hr|]. split; [reflexivity | exact Ho].
Defined.

(** ** The cursor once the producer has returned *)

(** X12: in every state a run can reach in which the producer has left its
    loop and returned (the feed ended, or the producer saw the abort flag
    set after a [put]), [cursor()] is the position of the last object the
    feed yielded, or the starting cursor if the feed yielded none. *)
Theorem X12_cursor_is_last_position_once_producer_returned
    (apikey output_dir : string) (num_workers : Z) (cursor0 : option string)
    (fs : gmap string string) (sched : list event) (w : World) :
  exec sched (start apikey output_dir num_workers cursor0 fs) = Some w ->
  producer_task w = PDone ->
  cursor (self w) = last_position cursor0 (yielded w).
Proof.
  intros Hex Hd.
  assert (Hinv : cursor_inv cursor0 w).
  { eapply (exec_invariant (cursor_inv cursor0)); [| |exact Hex].
    - intros e w1 w2. apply step_cursor_inv.
    - apply start_cursor_inv. }
  unfold cursor_inv in Hinv. rewrite Hd in Hinv. exact Hinv.
Qed.

Lemma X12_witness :
  exists w,
    exec [Sigint; ResumeProducer; FeedAnswers (Item (sample_object "a") "p1")]
      (start "key" "out" 1 None ∅) = Some w /\
    cursor (self w) = Some "p1".
Proof.
  eexists. split; [vm_compute; reflexivity|].
  match goal with
  | |- cursor (self ?w) = _ =>
      rewrite (X12_cursor_is_last_position_once_producer_returned
                 "key" "out" 1 None ∅
                 [Sigint; ResumeProducer; FeedAnswers (Item (sample_object "a") "p1")]
                 w ltac:(vm_compute; reflexivity) ltac:(vm_compute; reflexivity))
  end.
  vm_compute. reflexivity.
Defined.

(** ** Identifiers that are SHA-256 digests *)





(** ** The link to a collection *)

Lemma strip_prefix_app (p s : string) : Json.strip_prefix p (p +:+ s) = Some s.
Proof.
  induction p as [|c p IH]; [reflexivity|].
  rewrite string_cons_app. simpl. rewrite Ascii.eqb_refl. exact IH.
Qed.

(** X14: the link [generate_ui_link] builds for a collection identifier is
    the fixed GUI address followed by the identifier as it is, so the
    identifier can be read back from the link, and two links are equal
    only for equal identifiers. *)
Theorem X14_collection_link_determines_identifier (id1 id2 : string) :
  Json.strip_prefix "https://www.virustotal.com/gui/collection/"
    (generate_ui_link id1) = Some id1 /\
  (generate_ui_link id1 = generate_ui_link id2 -> id1 = id2).
Proof.
  split.
  - apply strip_prefix_app.
  - unfold generate_ui_link. apply string_app_inv_head.
Qed.

Lemma X14_witness :
  Json.strip_prefix "https://www.virustotal.com/gui/collection/"
    (generate_ui_link "abc") = Some "abc" /\
  "abc" = "abc".
Proof.
  destruct (X14_collection_link_determines_identifier "abc" "abc") as [H1 H2].
  split; [exact H1 | apply H2; reflexivity].
Defined.

(** ** Workers that wait in [get] when the abort comes *)








(** ** Only objects of the feed are processed *)

Lemma in_insert_worker (j : nat) (t t' : worker_state) (ts : list worker_state) :
  In t (<[j := t']> ts) -> t = t' \/ In t ts.
Proof.
  revert j. induction ts as [|t1 ts IH]; intros j H; [contradiction|].
  destruct j as [|j]; simpl in H.
  - destruct H as [<-|H]; [left; reflexivity | right; right; exact H].
  - destruct H as [<-|H]; [right; left; reflexivity|].
    destruct (IH j H) as [->|Hin]; [left; reflexivity | right; right; exact Hin].
Qed.

Lemma set_worker_from_queue (j : nat) (t : worker_state) (w : World) :
  all_from_queue w ->
  (forall o, In o (held t) -> In o (enqueued w)) ->
  all_from_queue (set_worker j t w).
Proof.
  intros (HA & HB & HC) Ht. split; [exact HA|]. split; [|exact HC].
  simpl. intros t1 o Hin Ho.
  destruct (in_insert_worker _ _ _ _ Hin) as [->|Hin']; [auto | eauto].
Qed.

Lemma get_and_continue_from_queue (j : nat) (w : World) :
  all_from_queue w -> all_from_queue (get_and_continue j w).
Proof.
  intros Hinv. unfold get_and_continue.
  destruct (_queue (self w)) as [|o q] eqn:Eq.
  - apply set_worker_from_queue; [exact Hinv | intros o []].
  - assert (Hinv1 : all_from_queue (with_self (set_queue q) w)).
    { destruct Hinv as (HA & HB & HC). split; [|split; assumption].
      simpl. intros o' Ho'. apply HA. rewrite Eq. right. exact Ho'. }
    assert (Ho : In o (enqueued w)).
    { destruct Hinv as (HA & _). apply HA. rewrite Eq. left. reflexivity. }
    destruct (getitem (context_attributes o) "download_url");
      apply set_worker_from_queue; try exact Hinv1; simpl.
    + intros o' [<-|[]]. exact Ho.
    + intros o' [].
Qed.

Lemma loop_head_from_queue (j : nat) (w : World) :
  all_from_queue w -> all_from_queue (loop_head j w).
Proof.
  intros Hinv. unfold loop_head.
  destruct (negb (_aborted (self w)) || negb (empty (_queue (self w)))).
  - apply get_and_continue_from_queue. exact Hinv.
  - apply set_worker_from_queue; [exact Hinv | intros o []].
Qed.

Lemma put_and_continue_from_queue (o : Object) (w : World) :
  all_from_queue w -> all_from_queue (put_and_continue o w).
Proof.
  intros (HA & HB & HC). unfold put_and_continue.
  destruct (full _ _); [split; [|split]; assumption|].
  assert (Hinv : all_from_queue
            (log_enqueued o (with_self (fun s => set_queue (_queue s ++ [o]) s) w))).
  { split; [|split]; simpl.
    - intros o' Ho'. apply in_app_or in Ho'. apply in_or_app.
      destruct Ho' as [Ho'|Ho']; [left; auto | right; exact Ho'].
    - intros t o' Ht Ho'. apply in_or_app. left. eauto.
    - intros x Hx. rewrite map_app. apply in_or_app. left. auto. }
  simpl. destruct (_aborted (self w)); exact Hinv.
Qed.

Lemma step_all_from_queue (e : event) (w w' : World) :
  all_from_queue w -> step e w = Some w' -> all_from_queue w'.
Proof.
  intros Hinv H. destruct e as [| |r|j|j ok|j data wr]; simpl in H.
  - injection H as <-. exact Hinv.
  - destruct (producer_task w); try discriminate.
    + injection H as <-. exact Hinv.
    + destruct (full _ _); [discriminate|]. injection H as <-.
      apply put_and_continue_from_queue. exact Hinv.
  - destruct (producer_task w); try discriminate.
    destruct r; injection H as <-; try exact Hinv.
    apply put_and_continue_from_queue. exact Hinv.
  - destruct (_worker_tasks w !! j) as [t|]; [|discriminate].
    destruct t; try discriminate.
    + injection H as <-. apply loop_head_from_queue. exact Hinv.
    + destruct (empty _); [discriminate|]. injection H as <-.
      apply get_and_continue_from_queue. exact Hinv.
  - destruct (_worker_tasks w !! j) as [t|] eqn:E; [|discriminate].
    destruct t; try discriminate. injection H as <-.
    apply set_worker_from_queue; [exact Hinv|].
    destruct ok; simpl; [|intros o []].
    intros o [<-|[]]. destruct Hinv as (_ & HB & _).
    apply (HB (WGetAsync file_obj download_url)); [|left; reflexivity].
    apply list_elem_of_In. apply list_elem_of_lookup. eauto.
  - destruct (_worker_tasks w !! j) as [t|] eqn:E; [|discriminate].
    destruct t; try discriminate.
    assert (Ho : In file_obj (enqueued w)).
    { destruct Hinv as (_ & HB & _).
      apply (HB (WRead file_obj)); [|left; reflexivity].
      apply list_elem_of_In. apply list_elem_of_lookup. eauto. }
    destruct data as [data|];
      [destruct (write_possible _ _ _); [|discriminate]|];
      injection H as <-;
      [|apply set_worker_from_queue; [exact Hinv | intros o []]].
    unfold write_and_continue. destruct wr as [|[text|]|[text|]].
    + apply loop_head_from_queue.
      destruct Hinv as (HA & HB & HC). split; [exact HA|]. split; [exact HB|].
      simpl. intros x Hx. apply in_app_or in Hx.
      destruct Hx as [Hx|[<-|[]]]; [auto|]. apply in_map. exact Ho.
    + apply set_worker_from_queue; [|intros o []].
      destruct Hinv as (HA & HB & HC). split; [|split]; assumption.
    + apply set_worker_from_queue; [exact Hinv | intros o []].
    + apply set_worker_from_queue; [|intros o []].
      destruct Hinv as (HA & HB & HC). split; [|split]; assumption.
    + apply set_worker_from_queue; [|intros o []].
      destruct Hinv as (HA & HB & HC). split; [|split]; assumption.
Qed.

(** X17: in every state a run can reach, every object a worker is
    downloading or writing, and every identifier printed, is that of an
    object the feed yielded: the workers process nothing but what the
    producer took from the feed. *)
Theorem X17_only_objects_of_the_feed_are_processed
    (apikey output_dir : string) (num_workers : Z) (cursor0 : option string)
    (fs : gmap string string) (sched : list event) (w : World) :
  exec sched (start apikey output_dir num_workers cursor0 fs) = Some w ->
  (forall t o, In t (_worker_tasks w) -> In o (held t) ->
     In o (map fst (yielded w))) /\
  (forall file_id, In file_id (stdout w) ->
     In file_id (map id (map fst (yielded w)))).
Proof.
  intros H.
  assert (Hinv : all_from_queue w).
  { eapply (exec_invariant all_from_queue); [| |exact H].
    - intros e w1 w2 H1 Hs. eapply step_all_from_queue; eauto.
    - split; [|split]; simpl.
      + intros o [].
      + intros t o Ht. apply list_elem_of_In, elem_of_replicate in Ht.
        destruct Ht as [-> _]. intros [].
      + intros x []. }
  destruct Hinv as (_ & HB & HC).
  rewrite (exec_feed_order _ _ _ _ _ _ _ H). split.
  - intros t o Ht Ho. apply in_or_app. left. eauto.
  - intros x Hx. rewrite map_app. apply in_or_app. left. auto.
Qed.

Lemma X17_witness :
  exists w,
    exec interrupted_schedule (start "key" "out" 1 None ∅) = Some w /\
    In "a" (stdout w) /\
    In "a" (map id (map fst (yielded w))).
Proof.
  eexists. split; [vm_compute; reflexivity|].
  match goal with
  | |- In _ (stdout ?w) /\ _ =>
      assert (Hex : exec interrupted_schedule (start "key" "out" 1 None ∅) = Some w)
        by (vm_compute; reflexivity);
      assert (Hin : In "a" (stdout w)) by (vm_compute; left; reflexivity);
      pose proof (proj2 (X17_only_objects_of_the_feed_are_processed
                           "key" "out" 1 None ∅ interrupted_schedule w Hex) "a" Hin)
        as H
  end.
  split; [exact Hin | exact H].
Defined.
